(** * moto: validation exceptions and the Route53 Resolver backend

    A shallow embedding of
      - [moto/ds/exceptions.py]            (the batched validation exception),
      - [moto/route53resolver/models.py]   (resolver endpoints, their backend),
    together with the properties of these two modules that the
    specification of the repository states. *)

From Stdlib Require Import Ascii.
From stdpp Require Import base tactics option list strings pretty gmap fin_maps.

(** ** Python helpers shared by both modules *)

(** [sep.join(items)] *)
Fixpoint str_join (sep : string) (items : list string) : string :=
  match items with
  | [] => ""
  | [x] => x
  | x :: rest => x +:+ sep +:+ str_join sep rest
  end.

(** [str(n)] for a non-negative [int]: its decimal numeral. *)
Definition str_of_nat (n : nat) : string := pretty n.

(** ** [moto/ds/exceptions.py] *)

Module Ds.

(** What [JsonRESTError.__init__(error_type, message)] stores, with the
    class attribute [code] (the HTTP status) of the subclass. *)
Record JsonRESTError := mkJsonRESTError {
  error_type : string;
  message : string;
  code : nat
}.

(** One entry of [error_tuples]: name of the invalid parameter, its value
    as the f-string interpolation prints it, and the constraint text. *)
Abbreviation ErrorTuple := (string * string * string)%type.

(** The body of the [for] loop of [DsValidationException.__init__]: the
    clause built for one tuple. *)
Definition clause_of (t : ErrorTuple) : string :=
  let '(arg_name, arg_value, constraint) := t in
  let value :=
    if String.eqb arg_name "password" then "at"
    else "'" +:+ arg_value +:+ "' at" in
  "Value " +:+ value +:+ " '" +:+ arg_name
    +:+ "' failed to satisfy constraint: "
    +:+ "Member must " +:+ constraint.

(** The loop itself: [msgs = []], then one [msgs.append(...)] per tuple. *)
Definition collect_msgs (error_tuples : list ErrorTuple) : list string :=
  fold_left (fun msgs t => msgs ++ [clause_of t]) error_tuples [].

Definition msg_leader (error_tuples : list ErrorTuple) : string :=
  str_of_nat (length error_tuples) +:+ " "
    +:+ "validation error"
    +:+ (if 1 <? length error_tuples then "s" else "")
    +:+ " detected: ".

Definition DsValidationException (error_tuples : list ErrorTuple)
  : JsonRESTError :=
  let msgs := collect_msgs error_tuples in
  {| error_type := "ValidationException";
     message := msg_leader error_tuples +:+ str_join "; " msgs;
     code := 400 |}.

(** *** The message format as the specification words it

    Every violation is rendered with its value quoted, whatever the name of
    the field. *)
Definition stated_clause (t : ErrorTuple) : string :=
  let '(field_name, value, description) := t in
  "Value '" +:+ value +:+ "' at '" +:+ field_name
    +:+ "' failed to satisfy constraint: Member must " +:+ description.

Definition count_header (k : nat) : string :=
  str_of_nat k +:+ " validation error" +:+ (if k =? 1 then "" else "s")
    +:+ " detected".

Definition stated_message (l : list ErrorTuple) : string :=
  count_header (length l) +:+ ": " +:+ str_join "; " (stated_clause <$> l).

(** The clause for a field that is named [password]. *)
Definition elided_clause (description : string) : string :=
  "Value at 'password' failed to satisfy constraint: Member must "
    +:+ description.

(** Two violation lists that differ at most in the values supplied for
    fields named [password]. *)
Definition same_but_password (t1 t2 : ErrorTuple) : Prop :=
  t1.1.1 = t2.1.1 ∧ t1.2 = t2.2 ∧
  (t1.1.1 ≠ "password" → t1.1.2 = t2.1.2).

End Ds.

(** ** [moto/route53resolver/models.py] *)

Module Route53Resolver.

(** *** Request data *)

(** One element of [ip_addresses]: a dict such as
    [{"SubnetId": ..., "Ip": ...}].  Either key may be missing from what a
    caller sends; the code subscripts both. *)
Abbreviation IpAddress := (gmap string string).

(** One element of [tags]: the dict [{"Key": ..., "Value": ...}]. *)
Abbreviation Tag := (string * string)%type.

(** The Python values handed to the validators and carried, unformatted, by
    a validation failure. *)
Inductive ArgValue :=
  | VNone
  | VStr (s : string)
  | VStrList (l : list string)
  | VIpList (l : list IpAddress).

Definition of_optional (o : option string) : ArgValue :=
  match o with Some s => VStr s | None => VNone end.

(** *** Exceptions

    The exceptions of [moto.route53resolver.exceptions] that [models.py]
    names (one of them only in a commented-out import), the two exceptions
    of [moto.ec2.exceptions] it catches, and the built-in errors of the
    indexing and address-parsing it performs. *)
Inductive Exn :=
  | ValidationException (error_tuples : list (string * ArgValue * string))
  | InvalidParameterException (message : string)
  | InvalidRequestException (message : string)
  | ResourceNotFoundException (message : string)
  | LimitExceededException (message : string)
  | InvalidSubnetIdError (subnet_id : string)
  | InvalidSecurityGroupNotFoundError (group_id : string)
  | IndexError
  | KeyError (key : string)
  | ValueError.

(** The exceptions that the checks of a request can end with: those of
    this service and the [ValueError] of an address that does not parse. *)
Definition own_error (e : Exn) : Prop :=
  match e with
  | ValidationException _ | InvalidParameterException _
  | InvalidRequestException _ | ResourceNotFoundException _
  | ValueError => True
  | _ => False
  end.

(** The [KeyError] of an IP address entry that lacks one of the two keys
    the code subscripts. *)
Definition missing_key_error (e : Exn) : Prop :=
  e = KeyError "SubnetId" ∨ e = KeyError "Ip".

Inductive Result (A : Type) :=
  | Ok (a : A)
  | Raise (e : Exn).
Arguments Ok {A} a.
Arguments Raise {A} e.

Definition rbind {A B} (r : Result A) (k : A → Result B) : Result B :=
  match r with
  | Ok a => k a
  | Raise e => Raise e
  end.

Notation "x <- r ;;; k" := (rbind r (fun x => k))
  (at level 100, r at next level, right associativity, only parsing).

(** [d[key]] on a dict. *)
Definition getitem (d : gmap string string) (key : string) : Result string :=
  match d !! key with
  | Some value => Ok value
  | None => Raise (KeyError key)
  end.

(** [try: body  except <exc> as exc: raise handler(exc)]: [handler] says
    which exceptions the clause catches and what is raised instead. *)
Definition try_except {A} (body : Result A) (handler : Exn → option Exn)
  : Result A :=
  match body with
  | Ok a => Ok a
  | Raise e => Raise (default e (handler e))
  end.

(** *** The validation engine ([moto.route53resolver.validations]) *)

(** A check inspects one value and answers with the description of the
    constraint it violates, if any. *)
Definition Validator : Type := ArgValue → option string.

(** What [models.py] imports and the sources at hand do not contain: the
    checks of [moto.route53resolver.validations], the account number of
    [moto.core], and the membership test
    [ip_address(ip_addr) in ip_network(cidr_block)] of Python's [ipaddress]
    ([None] when either argument does not parse, a [ValueError]). *)
Class Imports := {
  validate_creator_request_id : Validator;
  validate_direction : Validator;
  validate_endpoint_id : Validator;
  validate_ip_addresses : Validator;
  validate_name : Validator;
  validate_security_group_ids : Validator;
  validate_subnets : Validator;
  ACCOUNT_ID : string;
  ip_in_network : string → string → option bool
}.

(** Modelled from the spec: [validate_args] of
    [moto.route53resolver.validations] is not among the sources.  "Given an
    ordered list of (check-function, field-name, value) triples, run every
    check; each check either succeeds or appends an (field-name, value,
    constraint-description) violation; after running all checks, if the
    violation list is non-empty, fail as a single ValidationException". *)
Definition validate_args (validators : list (Validator * string * ArgValue))
  : Result unit :=
  let err_msgs :=
    fold_left
      (fun errs v =>
         let '(func, fieldname, value) := v in
         match func value with
         | Some msg => errs ++ [(fieldname, value, msg)]
         | None => errs
         end)
      validators [] in
  match err_msgs with
  | [] => Ok ()
  | _ => Raise (ValidationException err_msgs)
  end.

(** *** The network service ([moto.ec2]) *)

Record Subnet := mkSubnet {
  cidr_block : string;
  vpc_id : string
}.

Record EC2Backend := mkEC2Backend {
  subnets : gmap string Subnet;
  security_groups : gset string
}.

(** Modelled from the spec: [get_all_subnets] of the EC2 backend is not
    among the sources.  "Does subnet Y exist and what VPC does it belong
    to": the lookup returns the subnets asked for, or fails with the
    provider-specific invalid-subnet-ID error for an ID it does not hold. *)
Fixpoint get_all_subnets (ec2 : EC2Backend) (subnet_ids : list string)
  : Result (list Subnet) :=
  match subnet_ids with
  | [] => Ok []
  | subnet_id :: rest =>
      match subnets ec2 !! subnet_id with
      | None => Raise (InvalidSubnetIdError subnet_id)
      | Some subnet =>
          found <- get_all_subnets ec2 rest ;;;
          Ok (subnet :: found)
      end
  end.

(** Modelled from the spec: [describe_security_groups] of the EC2 backend
    is not among the sources.  "Does security group Z exist": the lookup
    returns the groups asked for, or fails with the provider's not-found
    error for a group ID it does not hold. *)
Fixpoint describe_security_groups (ec2 : EC2Backend) (group_ids : list string)
  : Result (list string) :=
  match group_ids with
  | [] => Ok []
  | group_id :: rest =>
      if decide (group_id ∈ security_groups ec2) then
        found <- describe_security_groups ec2 rest ;;;
        Ok (group_id :: found)
      else Raise (InvalidSecurityGroupNotFoundError group_id)
  end.

(** *** What an operation reads from outside the backend

    [ec2_backends] is the region registry of the network service, read at
    the regions it was built for; [random_choice i] is the outcome of the
    [i]-th [random.choice] made during the call; [utcnow i] is the reading
    of the [i]-th [datetime.now(timezone.utc).isoformat()].  Each call
    comes with its own readings: the network service, the clock and the
    random generator change between calls as they please. *)
Record Env := mkEnv {
  ec2_backends : string → EC2Backend;
  random_choice : nat → nat;
  utcnow : nat → string
}.

Definition hex_digits : list ascii :=
  String.list_ascii_of_string "0123456789abcdef".

(** Modelled from the spec: [get_random_hex] of [moto.core.utils] is not
    among the sources.  "Fixed-length random hex suffix": [length] random
    choices among the sixteen hexadecimal digits. *)
Definition get_random_hex (choice : nat → nat) (length : nat) : string :=
  String.string_of_list_ascii
    (map (fun i => nth (choice i `mod` 16) hex_digits "0"%char)
         (seq 0 length)).

(** *** The tagging service ([moto.utilities.tagging_service]) *)

Record TaggingService := mkTaggingService {
  tags : gmap string (list Tag)
}.

(** Modelled from the spec: the [TaggingService] class is not among the
    sources.  "Tag Set: mapping from resource ID to an ordered list of
    (key, value) pairs"; its interface is "tag(resource_id, list of
    {key,value}), untag(resource_id, list of keys),
    delete_all_tags(resource_id), list_tags(resource_id)".  This is
    [list_tags]: the pairs held for the resource, none for an unknown one. *)
Definition list_tags_for_resource (ts : TaggingService) (arn : string)
  : list Tag :=
  default [] (tags ts !! arn).

(** Modelled from the spec: [TaggingService.tag_resource] is not among the
    sources.  "tag(resource_id, list of {key,value})": the pairs are added,
    in order, to those the resource has. *)
Definition tag_resource (ts : TaggingService) (arn : string)
  (new_tags : list Tag) : TaggingService :=
  {| tags := <[arn := list_tags_for_resource ts arn ++ new_tags]>
               (tags ts) |}.

(** Modelled from the spec: [TaggingService.delete_all_tags_for_resource]
    is not among the sources.  "delete_all_tags(resource_id)": the entry of
    the resource is dropped. *)
Definition delete_all_tags_for_resource (ts : TaggingService) (arn : string)
  : TaggingService :=
  {| tags := delete arn (tags ts) |}.

(** *** [class ResolverEndpoint] *)

Record ResolverEndpoint := mkResolverEndpoint {
  region : string;
  creator_request_id : string;
  name : option string;
  security_group_ids : list string;
  direction : string;
  ip_addresses : list IpAddress;
  id : string;
  ip_address_count : nat;
  host_vpc_id : string;
  status : string;
  status_message : string;
  creation_time : string;
  modification_time : string
}.

(** [resolver_endpoint.status = value] *)
Definition set_status (value : string) (r : ResolverEndpoint)
  : ResolverEndpoint :=
  {| region := region r;
     creator_request_id := creator_request_id r;
     name := name r;
     security_group_ids := security_group_ids r;
     direction := direction r;
     ip_addresses := ip_addresses r;
     id := id r;
     ip_address_count := ip_address_count r;
     host_vpc_id := host_vpc_id r;
     status := value;
     status_message := status_message r;
     creation_time := creation_time r;
     modification_time := modification_time r |}.

(** [ResolverEndpoint._vpc_id_from_subnet] *)
Definition _vpc_id_from_subnet (env : Env) (region : string)
  (ip_addresses : list IpAddress) : Result string :=
  match ip_addresses with
  | [] => Raise IndexError
  | first :: _ =>
      first_subnet_id <- getitem first "SubnetId" ;;;
      found <- get_all_subnets (ec2_backends env region) [first_subnet_id] ;;;
      match found with
      | [] => Raise IndexError
      | subnet_info :: _ => Ok (vpc_id subnet_info)
      end
  end.

(** [ResolverEndpoint.__init__] *)
Definition new_ResolverEndpoint (env : Env)
  (region endpoint_id creator_request_id : string)
  (security_group_ids : list string) (direction : string)
  (ip_addresses : list IpAddress) (name : option string)
  : Result ResolverEndpoint :=
  host_vpc_id <- _vpc_id_from_subnet env region ip_addresses ;;;
  Ok {| region := region;
        creator_request_id := creator_request_id;
        name := name;
        security_group_ids := security_group_ids;
        direction := direction;
        ip_addresses := ip_addresses;
        id := endpoint_id;
        ip_address_count := 0;
        host_vpc_id := host_vpc_id;
        status := "OPERATIONAL";
        status_message := "[Trace id: x] Creating the Resolver Endpoint";
        creation_time := utcnow env 0;
        modification_time := utcnow env 1 |}.

(** The values of the dictionary that [description] returns. *)
Inductive Field :=
  | FStr (s : string)
  | FOptStr (s : option string)
  | FStrList (l : list string)
  | FInt (n : nat).

(** A dictionary literal, as its items in the order they are written. *)
Definition dict_get {A} (d : list (string * A)) (key : string) : option A :=
  snd <$> List.find (fun kv => String.eqb (fst kv) key) d.

Section Endpoint.
Context {imports : Imports}.

(** [ResolverEndpoint.arn] *)
Definition arn (r : ResolverEndpoint) : string :=
  "arn:aws:route53resolver:" +:+ region r +:+ ":" +:+ ACCOUNT_ID
    +:+ ":resolver-endpoint/" +:+ id r.

(** [ResolverEndpoint.description] *)
Definition description (r : ResolverEndpoint) : list (string * Field) :=
  [ ("Id", FStr (id r));
    ("CreatorRequestId", FStr (creator_request_id r));
    ("Arn", FStr (arn r));
    ("Name", FOptStr (name r));
    ("SecurityGroupIds", FStrList (security_group_ids r));
    ("Direction", FStr (direction r));
    ("IpAddressCount", FInt 0);
    ("HostVPCId", FStr (host_vpc_id r));
    ("Status", FStr (status r));
    ("StatusMessage", FStr (status_message r));
    ("CreationTime", FStr (creation_time r));
    ("ModificationTime", FStr (modification_time r)) ].
End Endpoint.

(** *** [class Route53ResolverBackend] *)

(** A reference to a [ResolverEndpoint] object. *)
Abbreviation ref := nat.

Record Route53ResolverBackend := mkBackend {
  region_name : option string;
  resolver_endpoints : gmap string ref;
  tagger : TaggingService
}.

(** The state the operations act on: the [ResolverEndpoint] objects
    allocated so far, each at the index that is its reference, and the
    backend of one region.  The registry holds references, so the object a
    caller received from [create_resolver_endpoint] is the object that
    [delete_resolver_endpoint] later updates. *)
Record State := mkState {
  objects : list ResolverEndpoint;
  self : Route53ResolverBackend
}.

(** [Route53ResolverBackend.__init__] *)
Definition init_backend (region_name : option string)
  : Route53ResolverBackend :=
  {| region_name := region_name;
     resolver_endpoints := ∅;
     tagger := {| tags := ∅ |} |}.

(** A method body: it runs from a state and ends with a value or an
    exception; what it changed before raising stays changed. *)
Definition M (A : Type) : Type := State → Result A * State.

Definition ret {A} (a : A) : M A := fun s => (Ok a, s).

Definition bind {A B} (m : M A) (k : A → M B) : M B :=
  fun s =>
    match m s with
    | (Ok a, s') => k a s'
    | (Raise e, s') => (Raise e, s')
    end.

Definition lift {A} (r : Result A) : M A := fun s => (r, s).

Notation "x <- m ;; k" := (bind m (fun x => k))
  (at level 100, m at next level, right associativity, only parsing).

(** Allocation of the object a constructor call returns. *)
Definition alloc (r : ResolverEndpoint) : M ref :=
  fun s => (Ok (length (objects s)),
            {| objects := objects s ++ [r]; self := self s |}).

(** [obj.status = value] for the object behind a reference (a reference
    the store does not hold, which no Python value can be, is left alone). *)
Definition store_status (l : ref) (value : string) : M unit :=
  fun s => (Ok (),
            {| objects := alter (set_status value) l (objects s);
               self := self s |}).

(** [self.resolver_endpoints[key] = value] *)
Definition registry_setitem (key : string) (value : ref) : M unit :=
  fun s => (Ok (),
            {| objects := objects s;
               self := {| region_name := region_name (self s);
                          resolver_endpoints :=
                            <[key := value]> (resolver_endpoints (self s));
                          tagger := tagger (self s) |} |}).

(** [self.resolver_endpoints.pop(key)] *)
Definition registry_pop (key : string) : M ref :=
  fun s =>
    match resolver_endpoints (self s) !! key with
    | None => (Raise (KeyError key), s)
    | Some l =>
        (Ok l,
         {| objects := objects s;
            self := {| region_name := region_name (self s);
                       resolver_endpoints :=
                         delete key (resolver_endpoints (self s));
                       tagger := tagger (self s) |} |})
    end.

(** [key in self.resolver_endpoints] *)
Definition registry_contains (key : string) : M bool :=
  fun s => (Ok (bool_decide (is_Some (resolver_endpoints (self s) !! key))), s).

(** [self.tagger.<method>(...)] for a method that updates the service. *)
Definition with_tagger (f : TaggingService → TaggingService) : M unit :=
  fun s => (Ok (),
            {| objects := objects s;
               self := {| region_name := region_name (self s);
                          resolver_endpoints := resolver_endpoints (self s);
                          tagger := f (tagger (self s)) |} |}).

Section Methods.
Context {imports : Imports}.

(** The list comprehension
    [[(x["SubnetId"], x["Ip"]) for x in ip_addresses]]: it is built in full
    before the loop starts, and stops at the first entry that lacks a
    key. *)
Fixpoint subnet_ip_pairs (ip_addresses : list IpAddress)
  : Result (list (string * string)) :=
  match ip_addresses with
  | [] => Ok []
  | x :: rest =>
      subnet_id <- getitem x "SubnetId" ;;;
      ip_addr <- getitem x "Ip" ;;;
      pairs <- subnet_ip_pairs rest ;;;
      Ok ((subnet_id, ip_addr) :: pairs)
  end.

(** The loop of [_verify_subnet_ips] over the
    [(x["SubnetId"], x["Ip"])] pairs. *)
Fixpoint verify_subnet_ip_pairs (ec2 : EC2Backend)
  (pairs : list (string * string)) : Result unit :=
  match pairs with
  | [] => Ok ()
  | (subnet_id, ip_addr) :: rest =>
      found <- try_except (get_all_subnets ec2 [subnet_id])
                 (fun exc =>
                    match exc with
                    | InvalidSubnetIdError _ =>
                        Some (InvalidParameterException
                                ("The subnet ID '" +:+ subnet_id
                                   +:+ "' does not exist"))
                    | _ => None
                    end) ;;;
      match found with
      | [] => Raise IndexError
      | subnet_info :: _ =>
          match ip_in_network ip_addr (cidr_block subnet_info) with
          | None => Raise ValueError
          | Some false =>
              Raise (InvalidRequestException
                       ("IP address '" +:+ ip_addr
                          +:+ "' is either not in subnet "
                          +:+ "'" +:+ subnet_id
                          +:+ "' CIDR range or is reserved"))
          | Some true => verify_subnet_ip_pairs ec2 rest
          end
      end
  end.

(** [Route53ResolverBackend._verify_subnet_ips] *)
Definition _verify_subnet_ips (env : Env) (region : string)
  (ip_addresses : list IpAddress) : Result unit :=
  if length ip_addresses <? 2 then
    Raise (InvalidRequestException
             "Resolver endpoint needs to have at least 2 IP addresses")
  else
    pairs <- subnet_ip_pairs ip_addresses ;;;
    verify_subnet_ip_pairs (ec2_backends env region) pairs.

(** The loop of [_verify_security_group_ids]. *)
Fixpoint verify_group_ids (ec2 : EC2Backend) (group_ids : list string)
  : Result unit :=
  match group_ids with
  | [] => Ok ()
  | group_id :: rest =>
      if negb (String.prefix "sg-" group_id) then
        Raise (InvalidParameterException
                 ("Malformed security group ID: Invalid id: '" +:+ group_id
                    +:+ "' " +:+ "(expecting 'sg-...')"))
      else
        _ <- try_except (describe_security_groups ec2 [group_id])
               (fun exc =>
                  match exc with
                  | InvalidSecurityGroupNotFoundError _ =>
                      Some (ResourceNotFoundException
                              ("The security group '" +:+ group_id
                                 +:+ "' does not exist"))
                  | _ => None
                  end) ;;;
        verify_group_ids ec2 rest
  end.

(** [Route53ResolverBackend._verify_security_group_ids] *)
Definition _verify_security_group_ids (env : Env) (region : string)
  (security_group_ids : list string) : Result unit :=
  if 10 <? length security_group_ids then
    Raise (InvalidParameterException
             "Maximum of 10 security groups are allowed")
  else verify_group_ids (ec2_backends env region) security_group_ids.

(** The list of checks that [create_resolver_endpoint] hands to
    [validate_args]. *)
Definition create_validators (creator_request_id : string)
  (name : option string) (security_group_ids : list string)
  (direction : string) (ip_addresses : list IpAddress)
  : list (Validator * string * ArgValue) :=
  [ (validate_creator_request_id, "creatorRequestId",
     VStr creator_request_id);
    (validate_direction, "direction", VStr direction);
    (validate_ip_addresses, "ipAddresses", VIpList ip_addresses);
    (validate_name, "name", of_optional name);
    (validate_security_group_ids, "securityGroupIds",
     VStrList security_group_ids);
    (validate_subnets, "ipAddresses.subnetId", VIpList ip_addresses) ].

(** The f-string that names a new endpoint. *)
Definition new_endpoint_id (env : Env) (direction : string) : string :=
  "rslvr-" +:+ (if String.eqb direction "INBOUND" then "in" else "out")
    +:+ "-" +:+ get_random_hex (random_choice env) 17.

(** [Route53ResolverBackend.create_resolver_endpoint] *)
Definition create_resolver_endpoint (env : Env)
  (region creator_request_id : string) (name : option string)
  (security_group_ids : list string) (direction : string)
  (ip_addresses : list IpAddress) (tags : option (list Tag)) : M ref :=
  _ <- lift (validate_args
               (create_validators creator_request_id name
                  security_group_ids direction ip_addresses)) ;;
  _ <- lift (_verify_subnet_ips env region ip_addresses) ;;
  _ <- lift (_verify_security_group_ids env region security_group_ids) ;;
  let endpoint_id := new_endpoint_id env direction in
  fields <- lift (new_ResolverEndpoint env region endpoint_id
                    creator_request_id security_group_ids direction
                    ip_addresses name) ;;
  resolver_endpoint <- alloc fields ;;
  _ <- registry_setitem endpoint_id resolver_endpoint ;;
  _ <- with_tagger (fun t => tag_resource t endpoint_id (default [] tags)) ;;
  ret resolver_endpoint.

(** [Route53ResolverBackend._validate_resolver_endpoint_id] *)
Definition _validate_resolver_endpoint_id (resolver_endpoint_id : string)
  : M unit :=
  _ <- lift (validate_args
               [(validate_endpoint_id, "resolverEndpointId",
                 VStr resolver_endpoint_id)]) ;;
  known <- registry_contains resolver_endpoint_id ;;
  if negb known then
    lift (Raise (ResourceNotFoundException
                   ("Resolver endpoint with ID '" +:+ resolver_endpoint_id
                      +:+ "' does not exist")))
  else ret ().

(** [Route53ResolverBackend.get_resolver_endpoint]: the body is [pass],
    so the call returns [None] whatever the argument. *)
Definition get_resolver_endpoint (resolver_endpoint_id : string)
  : M (option ref) :=
  ret None.

(** [Route53ResolverBackend.delete_resolver_endpoint] *)
Definition delete_resolver_endpoint (resolver_endpoint_id : string)
  : M ref :=
  _ <- _validate_resolver_endpoint_id resolver_endpoint_id ;;
  _ <- with_tagger
         (fun t => delete_all_tags_for_resource t resolver_endpoint_id) ;;
  resolver_endpoint <- registry_pop resolver_endpoint_id ;;
  _ <- store_status resolver_endpoint "DELETING" ;;
  ret resolver_endpoint.

(** [Route53ResolverBackend.reset] *)
Definition reset : M unit :=
  fun s => (Ok (),
            {| objects := objects s;
               self := init_backend (region_name (self s)) |}).

(** *** Histories of calls *)

Inductive Call :=
  | CreateResolverEndpoint (env : Env)
      (region creator_request_id : string) (name : option string)
      (security_group_ids : list string) (direction : string)
      (ip_addresses : list IpAddress) (tags : option (list Tag))
  | GetResolverEndpoint (resolver_endpoint_id : string)
  | DeleteResolverEndpoint (resolver_endpoint_id : string)
  | ResetBackend.

(** The state a call leaves behind, whether it returned or raised. *)
Definition after (c : Call) (s : State) : State :=
  match c with
  | CreateResolverEndpoint env region creator_request_id name
      security_group_ids direction ip_addresses tags =>
      snd (create_resolver_endpoint env region creator_request_id name
             security_group_ids direction ip_addresses tags s)
  | GetResolverEndpoint i => snd (get_resolver_endpoint i s)
  | DeleteResolverEndpoint i => snd (delete_resolver_endpoint i s)
  | ResetBackend => snd (reset s)
  end.

(** The state at process start: no object yet, a freshly built backend. *)
Definition initial (region_name : option string) : State :=
  {| objects := []; self := init_backend region_name |}.

(** The states that some history of calls leads to. *)
Inductive reachable : State → Prop :=
  | reachable_initial region_name : reachable (initial region_name)
  | reachable_after c s : reachable s → reachable (after c s).

(** *** Shapes of identifiers *)

Definition is_hex_digit (c : ascii) : Prop := c ∈ hex_digits.

(** ['rslvr-in-<17 hex>'] or ['rslvr-out-<17 hex>']. *)
Definition endpoint_id_form (prefix i : string) : Prop :=
  ∃ suffix : string,
    i = prefix +:+ suffix ∧
    String.length suffix = 17 ∧
    Forall is_hex_digit (String.list_ascii_of_string suffix).

Definition generated_id (i : string) : Prop :=
  endpoint_id_form "rslvr-in-" i ∨ endpoint_id_form "rslvr-out-" i.

(** The three checks that precede the construction of an endpoint. *)
Definition create_checks (env : Env) (region creator_request_id : string)
  (name : option string) (security_group_ids : list string)
  (direction : string) (ip_addresses : list IpAddress) : Result unit :=
  _ <- validate_args
         (create_validators creator_request_id name security_group_ids
            direction ip_addresses) ;;;
  _ <- _verify_subnet_ips env region ip_addresses ;;;
  _verify_security_group_ids env region security_group_ids.

(** The state after a history of calls, oldest first. *)
Definition after_all (calls : list Call) (s : State) : State :=
  fold_left (fun s c => after c s) calls s.

(** What the registry of a backend holds: every ID it lists leads to a
    live object that carries this very ID, generated in the format of the
    service and still operational; no object is listed under two IDs; and
    an object is operational or being deleted. *)
Definition consistent (s : State) : Prop :=
  (∀ i l, resolver_endpoints (self s) !! i = Some l →
     ∃ o, objects s !! l = Some o ∧ id o = i ∧
          status o = "OPERATIONAL" ∧ generated_id i) ∧
  (∀ i j l, resolver_endpoints (self s) !! i = Some l →
     resolver_endpoints (self s) !! j = Some l → i = j) ∧
  (∀ l o, objects s !! l = Some o →
     status o = "OPERATIONAL" ∨ status o = "DELETING").

(** The state in which a successful [create_resolver_endpoint] ends: the
    new object [o] is allocated, registered under its ID, and tagged. *)
Definition committed (o : ResolverEndpoint) (tags : option (list Tag))
  (s : State) : State :=
  {| objects := objects s ++ [o];
     self := {| region_name := region_name (self s);
                resolver_endpoints :=
                  <[id o := length (objects s)]>
                    (resolver_endpoints (self s));
                tagger := tag_resource (tagger (self s)) (id o)
                            (default [] tags) |} |}.

(** The state in which a successful [delete_resolver_endpoint] ends. *)
Definition removed (i : string) (l : ref) (s : State) : State :=
  {| objects := alter (set_status "DELETING") l (objects s);
     self := {| region_name := region_name (self s);
                resolver_endpoints := delete i (resolver_endpoints (self s));
                tagger := delete_all_tags_for_resource (tagger (self s)) i
             |} |}.

Definition not_found_message (i : string) : string :=
  "Resolver endpoint with ID '" +:+ i +:+ "' does not exist".

(** *** Sequences of creations *)

Record CreateRequest := mkCreateRequest {
  req_env : Env;
  req_region : string;
  req_creator_request_id : string;
  req_name : option string;
  req_security_group_ids : list string;
  req_direction : string;
  req_ip_addresses : list IpAddress;
  req_tags : option (list Tag)
}.

Definition submit (r : CreateRequest) : M ref :=
  create_resolver_endpoint (req_env r) (req_region r)
    (req_creator_request_id r) (req_name r) (req_security_group_ids r)
    (req_direction r) (req_ip_addresses r) (req_tags r).

(** A request that passes format validation and both verifications. *)
Definition valid_request (r : CreateRequest) : Prop :=
  create_checks (req_env r) (req_region r) (req_creator_request_id r)
    (req_name r) (req_security_group_ids r) (req_direction r)
    (req_ip_addresses r) = Ok ().

(** Submit the requests one after the other; the outcomes, in order, and
    the final state. *)
Fixpoint submit_all (rs : list CreateRequest) (s : State)
  : list (Result ref) * State :=
  match rs with
  | [] => ([], s)
  | r :: rest =>
      let '(out, s') := submit r s in
      let '(outs, s'') := submit_all rest s' in
      (out :: outs, s'')
  end.

Definition succeeded {A} (r : Result A) : Prop :=
  match r with Ok _ => True | Raise _ => False end.

(** The quota rule as the specification words it: "Creating N resources
    up to a region's quota succeeds; the (N+1)-th fails with the
    limit-exceeded exception naming the exact limit value", the registry
    staying at N resources. *)
Definition quota_enforced (N : nat) : Prop :=
  ∀ (region_name : option string) (rs : list CreateRequest)
    (last : CreateRequest),
    length rs = N → Forall valid_request rs → valid_request last →
    let '(outs, s) := submit_all rs (initial region_name) in
    Forall succeeded outs ∧
    ∃ before after_,
      submit last s
      = (Raise (LimitExceededException
                  (before +:+ str_of_nat N +:+ after_)), s).

End Methods.

(** *** Further invariants and the registry of regions *)

(** Tags are held for registered endpoints only. *)
Definition tags_within_registry (s : State) : Prop :=
  ∀ i, resolver_endpoints (self s) !! i = None →
       tags (tagger (self s)) !! i = None.

(** One of the three module-level loops:
    [for available_region in <regions>:
       route53resolver_backends[available_region] =
         Route53ResolverBackend(available_region)]. *)
Definition register_regions (available : list string)
  (backends : gmap string Route53ResolverBackend)
  : gmap string Route53ResolverBackend :=
  fold_left
    (fun backends available_region =>
       <[available_region := init_backend (Some available_region)]> backends)
    available backends.

(** [route53resolver_backends] once the module is loaded.  The three lists
    are the answers of boto3's [Session().get_available_regions] for the
    service in the default partition, in [aws-us-gov] and in [aws-cn]. *)
Definition route53resolver_backends (standard us_gov cn : list string)
  : gmap string Route53ResolverBackend :=
  register_regions cn (register_regions us_gov (register_regions standard ∅)).

(** *** A sample deployment

    Concrete checks, a concrete network service and concrete readings of
    the clock and of the random generator, on which the examples below
    evaluate the backend. *)

Definition max_length (n : nat) : Validator :=
  fun v =>
    match v with
    | VStr s =>
        if n <? String.length s
        then Some ("have length less than or equal to " +:+ str_of_nat n)
        else None
    | _ => None
    end.

Definition max_items (n : nat) : Validator :=
  fun v =>
    let size :=
      match v with
      | VStrList l => length l
      | VIpList l => length l
      | _ => 0
      end in
    if n <? size
    then Some ("have length less than or equal to " +:+ str_of_nat n)
    else None.

Definition one_of (allowed : list string) : Validator :=
  fun v =>
    match v with
    | VStr s =>
        if existsb (String.eqb s) allowed then None
        else Some ("satisfy enum value set: [" +:+ str_join ", " allowed
                     +:+ "]")
    | _ => None
    end.

Definition sample_ip_in_network (ip_addr cidr : string) : option bool :=
  if String.eqb cidr "10.0.1.0/24" then Some (String.prefix "10.0.1." ip_addr)
  else if String.eqb cidr "10.0.2.0/24"
       then Some (String.prefix "10.0.2." ip_addr)
       else None.

Definition sample_imports : Imports :=
  {| validate_creator_request_id := max_length 255;
     validate_direction := one_of ["INBOUND"; "OUTBOUND"];
     validate_endpoint_id := max_length 64;
     validate_ip_addresses := max_items 10;
     validate_name := max_length 64;
     validate_security_group_ids := max_items 64;
     validate_subnets := max_items 10;
     ACCOUNT_ID := "123456789012";
     ip_in_network := sample_ip_in_network |}.

Definition sample_ec2 : EC2Backend :=
  {| subnets :=
       <["subnet-a" := {| cidr_block := "10.0.1.0/24"; vpc_id := "vpc-1" |}]>
         (<["subnet-b" :=
              {| cidr_block := "10.0.2.0/24"; vpc_id := "vpc-1" |}]> ∅);
     security_groups := {["sg-1"]} |}.

(** The random generator of the sample answers its [i]-th question with
    [seed + i]. *)
Definition sample_env (seed : nat) : Env :=
  {| ec2_backends := fun _ => sample_ec2;
     random_choice := fun i => seed + i;
     utcnow := fun _ => "2021-11-08T00:00:00+00:00" |}.

(** The dict [{"SubnetId": subnet_id, "Ip": ip_addr}]. *)
Definition ip_entry (subnet_id ip_addr : string) : IpAddress :=
  <["SubnetId" := subnet_id]> (<["Ip" := ip_addr]> ∅).

(** The dict [{"SubnetId": subnet_id}]. *)
Definition subnet_entry (subnet_id : string) : IpAddress :=
  <["SubnetId" := subnet_id]> ∅.

Definition sample_ips : list IpAddress :=
  [ ip_entry "subnet-a" "10.0.1.200"; ip_entry "subnet-b" "10.0.2.20" ].

(** A network service with a subnet whose CIDR block the sample's
    membership test does not parse. *)
Definition sample_env_odd_cidr : Env :=
  {| ec2_backends :=
       fun _ =>
         {| subnets :=
              <["subnet-c" :=
                  {| cidr_block := "10.0.3.0/33"; vpc_id := "vpc-1" |}]>
                (subnets sample_ec2);
            security_groups := security_groups sample_ec2 |};
     random_choice := fun i => i;
     utcnow := fun _ => "2021-11-08T00:00:00+00:00" |}.

(** A request that passes every check of the sample deployment. *)
Definition sample_create (seed : nat) (direction : string)
  (tags : option (list Tag)) : M ref :=
  create_resolver_endpoint (imports := sample_imports) (sample_env seed)
    "us-east-1" "request-1" (Some "endpoint") ["sg-1"] direction
    sample_ips tags.

Definition sample_state : State := initial (Some "us-east-1").

Definition sample_request (seed : nat) : CreateRequest :=
  {| req_env := sample_env seed;
     req_region := "us-east-1";
     req_creator_request_id := "request-1";
     req_name := Some "endpoint";
     req_security_group_ids := ["sg-1"];
     req_direction := "INBOUND";
     req_ip_addresses := sample_ips;
     req_tags := None |}.

(** The sample state after one endpoint has been created with a tag. *)
Definition sample_created : State :=
  after (imports := sample_imports)
    (CreateResolverEndpoint (sample_env 0) "us-east-1" "request-1"
       (Some "endpoint") ["sg-1"] "INBOUND" sample_ips
       (Some [("team", "dns")]))
    sample_state.

(** The same request with other IP addresses. *)
Definition sample_create_at (ips : list IpAddress) : M ref :=
  create_resolver_endpoint (imports := sample_imports) (sample_env 0)
    "us-east-1" "request-1" (Some "endpoint") ["sg-1"] "INBOUND" ips None.

End Route53Resolver.

(** * Properties *)

(** ** Strings *)

Lemma append_cons (ch : ascii) (a b : string) :
  String ch a +:+ b = String ch (a +:+ b).
Proof. reflexivity. Qed.

Lemma append_nil_l (a : string) : "" +:+ a = a.
Proof. reflexivity. Qed.

Lemma append_assoc (a b c : string) : (a +:+ b) +:+ c = a +:+ (b +:+ c).
Proof.
  induction a as [|ch a IH]; [done|]. by rewrite !append_cons, IH.
Qed.

Lemma length_append (a b : string) :
  String.length (a +:+ b) = String.length a + String.length b.
Proof.
  induction a as [|ch a IH]; [done|]. rewrite append_cons. simpl.
  by rewrite IH.
Qed.

(** Appends of literals are brought to one right-nested normal form. *)
Ltac str_norm := rewrite ?append_assoc, ?append_cons, ?append_nil_l.

(** ** The batched validation exception *)

Module DsTheory.
Import Ds.

(** The loop appends one clause per tuple, in the order of the tuples. *)
Lemma collect_msgs_from (acc : list string) (l : list ErrorTuple) :
  fold_left (fun msgs t => msgs ++ [clause_of t]) l acc
  = acc ++ (clause_of <$> l).
Proof.
  revert acc. induction l as [|t l IH]; intros acc; simpl.
  - by rewrite app_nil_r.
  - rewrite IH. by rewrite <- app_assoc.
Qed.

Lemma collect_msgs_map (l : list ErrorTuple) :
  collect_msgs l = clause_of <$> l.
Proof. unfold collect_msgs. by rewrite collect_msgs_from. Qed.

Lemma clause_of_password (v c : string) :
  clause_of ("password", v, c) = elided_clause c.
Proof. reflexivity. Qed.

Lemma clause_of_other (n v c : string) :
  n ≠ "password" → clause_of (n, v, c) = stated_clause (n, v, c).
Proof.
  intros Hn. unfold clause_of, stated_clause.
  destruct (String.eqb_spec n "password") as [->|_]; [done|].
  by str_norm.
Qed.

Lemma msg_leader_header (l : list ErrorTuple) :
  l ≠ [] → msg_leader l = count_header (length l) +:+ ": ".
Proof.
  intros Hl. unfold msg_leader, count_header.
  destruct l as [|t [|t' l]]; [done | reflexivity |].
  simpl. by str_norm.
Qed.

(** The message that the directory service's own test of accumulated
    validation errors looks into: three violations, the first of them on
    the password. *)
Example three_violations_message :
  message
    (DsValidationException
       [ ("password", "bad_password",
          "satisfy regular expression pattern: (?=^.{8,64}$)");
         ("size", "big", "satisfy enum value set: [Small, Large]");
         ("name", "bad_name_1",
          "satisfy regular expression pattern: ^([a-zA-Z0-9]+[\.-])+$") ])
  = "3 validation errors detected: "
      +:+ "Value at 'password' failed to satisfy constraint: "
      +:+ "Member must satisfy regular expression pattern: (?=^.{8,64}$); "
      +:+ "Value 'big' at 'size' failed to satisfy constraint: "
      +:+ "Member must satisfy enum value set: [Small, Large]; "
      +:+ "Value 'bad_name_1' at 'name' failed to satisfy constraint: "
      +:+ "Member must satisfy regular expression pattern: "
      +:+ "^([a-zA-Z0-9]+[\.-])+$".
Proof. vm_compute. reflexivity. Qed.

Example one_violation_message :
  message
    (DsValidationException
       [("directoryId", "d-1", "satisfy regular expression pattern: ^d-$")])
  = "1 validation error detected: "
      +:+ "Value 'd-1' at 'directoryId' failed to satisfy constraint: "
      +:+ "Member must satisfy regular expression pattern: ^d-$".
Proof. vm_compute. reflexivity. Qed.

(** C1, as the code has it.  For a non-empty list of K violation tuples the
    exception carries the error type [ValidationException]; its message is
    the count header "K validation error(s) detected" (singular exactly
    when K = 1), then ": ", then exactly K clauses joined by "; " in the
    order of the tuples.  The clause of a tuple reads "Value '<value>' at
    '<field-name>' failed to satisfy constraint: Member must
    <constraint-description>" unless the field is named [password], whose
    clause leaves the value out; on a list without such a field the whole
    message is the one the specification words. *)
Theorem validation_message_format (l : list ErrorTuple) (Hl : l ≠ []) :
  error_type (DsValidationException l) = "ValidationException" ∧
  (∃ clauses : list string,
     message (DsValidationException l)
     = count_header (length l) +:+ ": " +:+ str_join "; " clauses ∧
     length clauses = length l ∧
     ∀ i n v c, l !! i = Some (n, v, c) →
       clauses !! i
       = Some (if decide (n = "password") then elided_clause c
               else stated_clause (n, v, c))) ∧
  (Forall (fun t => t.1.1 ≠ "password") l →
   message (DsValidationException l) = stated_message l).
Proof.
  split; [reflexivity|]. split.
  - exists (clause_of <$> l). split; [|split].
    + simpl. rewrite collect_msgs_map, (msg_leader_header l Hl).
      by rewrite append_assoc.
    + by rewrite length_fmap.
    + intros i n v c Hi. rewrite list_lookup_fmap, Hi. simpl. f_equal.
      destruct (decide (n = "password")) as [->|Hn].
      * apply clause_of_password.
      * by apply clause_of_other.
  - intros Hno. simpl. unfold stated_message.
    rewrite collect_msgs_map, (msg_leader_header l Hl), append_assoc.
    do 3 f_equal. clear Hl. induction Hno as [|[[n v] c] l Hn Hno IH].
    + done.
    + rewrite !fmap_cons, IH. f_equal. by apply clause_of_other.
Qed.

Lemma validation_message_format_witness :
  [("size", "Huge", "satisfy enum value set: [Small, Large]")] ≠ [] ∧
  message
    (DsValidationException
       [("size", "Huge", "satisfy enum value set: [Small, Large]")])
  = stated_message
      [("size", "Huge", "satisfy enum value set: [Small, Large]")].
Proof.
  split; [done|].
  apply (validation_message_format
           [("size", "Huge", "satisfy enum value set: [Small, Large]")]).
  - done.
  - repeat constructor; simpl; done.
Defined.

(** C1, as the specification words it, fails on a field named [password]:
    the value is not quoted into the clause. *)
Lemma stated_message_password_counterexample :
  message
    (DsValidationException
       [("password", "hunter2", "have length greater than or equal to 8")])
  ≠ stated_message
      [("password", "hunter2", "have length greater than or equal to 8")].
Proof. vm_compute. discriminate. Qed.

(** C4.  The clause of a field named [password] reads "Value at 'password'
    failed to satisfy constraint: ..." without the value, and the
    exception as a whole does not depend on the values supplied for such
    fields: two violation lists that agree everywhere except on password
    values yield the same exception, message included. *)
Theorem password_value_elided (l1 l2 : list ErrorTuple)
  (Hsame : Forall2 same_but_password l1 l2) :
  DsValidationException l1 = DsValidationException l2 ∧
  ∀ i v c, l1 !! i = Some ("password", v, c) →
    collect_msgs l1 !! i = Some (elided_clause c).
Proof.
  split.
  - assert (Hlen : length l1 = length l2) by (by eapply Forall2_length).
    assert (Hmap : clause_of <$> l1 = clause_of <$> l2).
    { clear Hlen. induction Hsame as [|[[n1 v1] c1] [[n2 v2] c2] l1 l2 Ht _ IH].
      - done.
      - rewrite !fmap_cons, IH. f_equal.
        destruct Ht as (Hn & Hc & Hv). simpl in *. subst n2 c2.
        unfold clause_of.
        destruct (String.eqb_spec n1 "password") as [_|Hn]; [done|].
        by rewrite (Hv Hn). }
    unfold DsValidationException, msg_leader.
    by rewrite !collect_msgs_map, Hmap, Hlen.
  - intros i v c Hi. by rewrite collect_msgs_map, list_lookup_fmap, Hi.
Qed.

Lemma password_value_elided_witness :
  DsValidationException
    [("password", "hunter2", "have length greater than or equal to 8");
     ("name", "x", "have length greater than or equal to 2")]
  = DsValidationException
      [("password", "correct horse", "have length greater than or equal to 8");
       ("name", "x", "have length greater than or equal to 2")].
Proof.
  apply (password_value_elided
           [("password", "hunter2", "have length greater than or equal to 8");
            ("name", "x", "have length greater than or equal to 2")]
           [("password", "correct horse",
             "have length greater than or equal to 8");
            ("name", "x", "have length greater than or equal to 2")]).
  repeat constructor; simpl; done.
Defined.

(** *** Beyond the stated claims *)

Lemma append_nil_r (a : string) : a +:+ "" = a.
Proof.
  induction a as [|ch a IH]; [done|]. by rewrite append_cons, IH.
Qed.

Lemma append_inj_same_length (a b x y : string) :
  String.length a = String.length b → a +:+ x = b +:+ y → a = b ∧ x = y.
Proof.
  revert b. induction a as [|ch a IH]; intros [|ch' b] Hlen Heq;
    try done.
  rewrite !append_cons in Heq. injection Heq as -> Heq.
  injection Hlen as Hlen. destruct (IH b Hlen Heq) as [-> ->]. done.
Qed.

Lemma append_cancel_r (a b x : string) : a +:+ x = b +:+ x → a = b.
Proof.
  intros Heq. apply (append_inj_same_length a b x x); [|done].
  apply (f_equal String.length) in Heq. rewrite !length_append in Heq. lia.
Qed.

(** Joining puts an item between what stands before it and what stands
    behind it, and neither depends on the item. *)
Lemma str_join_middle (sep : string) (before behind : list string) :
  ∃ head tail : string,
    ∀ x, str_join sep (before ++ x :: behind) = head +:+ x +:+ tail.
Proof.
  induction before as [|a before (head & tail & IH)].
  - exists "", (match behind with
                | [] => ""
                | _ => sep +:+ str_join sep behind
                end).
    intros x. cbn [app]. destruct behind; cbn [str_join].
    + by rewrite append_nil_l, append_nil_r.
    + done.
  - exists (a +:+ sep +:+ head), tail. intros x.
    specialize (IH x). cbn [app].
    destruct (before ++ x :: behind) as [|y rest] eqn:Hrest;
      [by destruct before|].
    cbn [str_join]. cbn [str_join] in IH. rewrite IH.
    by rewrite !append_assoc.
Qed.

(** X18.  The value of a field that is not named [password] is echoed
    faithfully, wherever the violation stands in the list: two lists of
    violations that differ in that one value only never produce the same
    message. *)
Theorem value_echoed (before behind : list ErrorTuple) (n v1 v2 c : string)
  (Hn : n ≠ "password")
  (Hdiff : v1 ≠ v2) :
  message (DsValidationException (before ++ (n, v1, c) :: behind))
  ≠ message (DsValidationException (before ++ (n, v2, c) :: behind)).
Proof.
  intros Hsame. apply Hdiff.
  cbn [message DsValidationException] in Hsame.
  unfold msg_leader in Hsame.
  rewrite !length_app in Hsame. cbn [length] in Hsame.
  rewrite !append_assoc in Hsame.
  do 5 apply (inj (String.append _)) in Hsame.
  rewrite !collect_msgs_map, !fmap_app, !fmap_cons in Hsame.
  destruct (str_join_middle "; " (clause_of <$> before)
              (clause_of <$> behind)) as (head & tail & Hjoin).
  rewrite !Hjoin in Hsame. apply (inj (String.append _)) in Hsame.
  rewrite !clause_of_other in Hsame by done. unfold stated_clause in Hsame.
  rewrite !append_assoc in Hsame.
  apply (inj (String.append _)) in Hsame.
  by apply append_cancel_r in Hsame.
Qed.

Lemma value_echoed_witness :
  message
    (DsValidationException
       [ ("password", "hunter2", "have length greater than or equal to 8");
         ("size", "Huge", "satisfy enum value set: [Small, Large]") ])
  ≠ message
      (DsValidationException
         [ ("password", "hunter2", "have length greater than or equal to 8");
           ("size", "Tiny", "satisfy enum value set: [Small, Large]") ]).
Proof.
  apply (value_echoed
           [("password", "hunter2", "have length greater than or equal to 8")]
           [] "size" "Huge" "Tiny" "satisfy enum value set: [Small, Large]");
    done.
Defined.

End DsTheory.

(** ** The resolver backend *)

Module ResolverTheory.
Import Route53Resolver.

Section Steps.
Context {imports : Imports}.

(** *** The validation engine *)

Lemma validate_args_single (check : Validator) (field : string)
  (v : ArgValue) :
  validate_args [(check, field, v)]
  = match check v with
    | Some msg => Raise (ValidationException [(field, v, msg)])
    | None => Ok ()
    end.
Proof. unfold validate_args. simpl. by destruct (check v). Qed.

Lemma validate_args_raises (vs : list (Validator * string * ArgValue)) e :
  validate_args vs = Raise e → ∃ errs, e = ValidationException errs.
Proof.
  unfold validate_args.
  match goal with |- context [fold_left ?f vs []] =>
    destruct (fold_left f vs []) end; [done|].
  intros [= <-]. eauto.
Qed.

(** *** The cross-service lookups *)

Lemma get_all_subnets_one (ec2 : EC2Backend) (subnet_id : string) :
  get_all_subnets ec2 [subnet_id]
  = match subnets ec2 !! subnet_id with
    | Some subnet => Ok [subnet]
    | None => Raise (InvalidSubnetIdError subnet_id)
    end.
Proof. simpl. by destruct (subnets ec2 !! subnet_id). Qed.

Lemma describe_security_groups_one (ec2 : EC2Backend) (group_id : string) :
  describe_security_groups ec2 [group_id]
  = if decide (group_id ∈ security_groups ec2) then Ok [group_id]
    else Raise (InvalidSecurityGroupNotFoundError group_id).
Proof. simpl. by destruct (decide _). Qed.

(** One round of the loop of [_verify_subnet_ips]. *)
Lemma verify_subnet_ip_pairs_cons ec2 subnet_id ip_addr rest :
  verify_subnet_ip_pairs ec2 ((subnet_id, ip_addr) :: rest)
  = match subnets ec2 !! subnet_id with
    | None =>
        Raise (InvalidParameterException
                 ("The subnet ID '" +:+ subnet_id +:+ "' does not exist"))
    | Some subnet_info =>
        match ip_in_network ip_addr (cidr_block subnet_info) with
        | None => Raise ValueError
        | Some false =>
            Raise (InvalidRequestException
                     ("IP address '" +:+ ip_addr
                        +:+ "' is either not in subnet "
                        +:+ "'" +:+ subnet_id
                        +:+ "' CIDR range or is reserved"))
        | Some true => verify_subnet_ip_pairs ec2 rest
        end
    end.
Proof.
  cbn [verify_subnet_ip_pairs]. rewrite get_all_subnets_one.
  by destruct (subnets ec2 !! subnet_id).
Qed.

Lemma verify_subnet_ip_pairs_raises ec2 pairs e :
  verify_subnet_ip_pairs ec2 pairs = Raise e → own_error e.
Proof.
  induction pairs as [|[subnet_id ip_addr] rest IH]; [done|].
  rewrite verify_subnet_ip_pairs_cons.
  destruct (subnets ec2 !! subnet_id) as [subnet_info|];
    [|by intros [= <-]].
  destruct (ip_in_network _ _) as [[|]|]; [done | | ]; by intros [= <-].
Qed.

Lemma verify_group_ids_raises ec2 group_ids e :
  verify_group_ids ec2 group_ids = Raise e → own_error e.
Proof.
  induction group_ids as [|group_id rest IH]; [done|].
  cbn [verify_group_ids]. destruct (negb _); [by intros [= <-]|].
  rewrite describe_security_groups_one.
  destruct (decide _); [done | by intros [= <-]].
Qed.

(** One entry of the list comprehension. *)
Lemma subnet_ip_pairs_cons (x : IpAddress) rest :
  subnet_ip_pairs (x :: rest)
  = match x !! "SubnetId" with
    | None => Raise (KeyError "SubnetId")
    | Some subnet_id =>
        match x !! "Ip" with
        | None => Raise (KeyError "Ip")
        | Some ip_addr =>
            match subnet_ip_pairs rest with
            | Ok pairs => Ok ((subnet_id, ip_addr) :: pairs)
            | Raise e => Raise e
            end
        end
    end.
Proof.
  cbn [subnet_ip_pairs]. unfold getitem.
  destruct (x !! "SubnetId"); [|done]. by destruct (x !! "Ip").
Qed.

Lemma subnet_ip_pairs_raises (ips : list IpAddress) e :
  subnet_ip_pairs ips = Raise e →
  e = KeyError "SubnetId" ∨ e = KeyError "Ip".
Proof.
  induction ips as [|x rest IH]; [done|].
  rewrite subnet_ip_pairs_cons.
  destruct (x !! "SubnetId"); [|intros [= <-]; by left].
  destruct (x !! "Ip"); [|intros [= <-]; by right].
  destruct (subnet_ip_pairs rest); [done|]. intros [= <-]. by apply IH.
Qed.

(** The comprehension is built exactly when every entry carries both
    keys. *)
Lemma subnet_ip_pairs_returns (ips : list IpAddress) :
  (∃ pairs, subnet_ip_pairs ips = Ok pairs) ↔
  Forall (fun x : IpAddress =>
            is_Some (x !! "SubnetId") ∧ is_Some (x !! "Ip")) ips.
Proof.
  induction ips as [|x rest IH].
  - split; [constructor | by exists []].
  - rewrite subnet_ip_pairs_cons, Forall_cons, <- IH.
    destruct (x !! "SubnetId") as [subnet_id|].
    2:{ split; [by intros [? ?] | by intros [[[? ?] _] _]]. }
    destruct (x !! "Ip") as [ip_addr|].
    2:{ split; [by intros [? ?] | by intros [[_ [? ?]] _]]. }
    destruct (subnet_ip_pairs rest) as [pairs|e].
    + split; [intros _; split; [split|]; eauto | eauto].
    + split; [by intros [? ?] | by intros [_ [? ?]]].
Qed.

(** The comprehension followed by the loop passes exactly the lists whose
    entries all name a subnet that exists and an address inside it. *)
Lemma verify_subnet_entries_ok ec2 (ips : list IpAddress) :
  rbind (subnet_ip_pairs ips)
    (fun pairs => verify_subnet_ip_pairs ec2 pairs) = Ok ()
  ↔ Forall (fun x : IpAddress =>
              ∃ subnet_id ip_addr subnet_info,
                x !! "SubnetId" = Some subnet_id ∧
                x !! "Ip" = Some ip_addr ∧
                subnets ec2 !! subnet_id = Some subnet_info ∧
                ip_in_network ip_addr (cidr_block subnet_info) = Some true)
           ips.
Proof.
  induction ips as [|x rest IH].
  - split; [constructor | done].
  - rewrite subnet_ip_pairs_cons, Forall_cons, <- IH.
    destruct (x !! "SubnetId") as [subnet_id|].
    2:{ split; [done | by intros [(? & ? & ? & ? & _) _]]. }
    destruct (x !! "Ip") as [ip_addr|].
    2:{ split; [done | by intros [(? & ? & ? & _ & ? & _) _]]. }
    destruct (subnet_ip_pairs rest) as [pairs|e]; cbn [rbind].
    2:{ split; [done | by intros [_ ?]]. }
    rewrite verify_subnet_ip_pairs_cons.
    destruct (subnets ec2 !! subnet_id) as [subnet_info|] eqn:Hx.
    + destruct (ip_in_network ip_addr (cidr_block subnet_info))
        as [[|]|] eqn:Hin.
      * split; [|tauto]. intros Hrest. split; [|done].
        by exists subnet_id, ip_addr, subnet_info.
      * split; [done|].
        intros [(? & ? & ? & [= <-] & [= <-] & ? & ?) _]. congruence.
      * split; [done|].
        intros [(? & ? & ? & [= <-] & [= <-] & ? & ?) _]. congruence.
    + split; [done|].
      intros [(? & ? & ? & [= <-] & [= <-] & ? & ?) _]. congruence.
Qed.

(** The loop runs past the entries that pass, provided the comprehension
    could be built. *)
Lemma verify_subnet_entries_stops ec2 (before rest : list IpAddress) :
  Forall (fun x : IpAddress =>
            ∃ subnet_id ip_addr subnet_info,
              x !! "SubnetId" = Some subnet_id ∧
              x !! "Ip" = Some ip_addr ∧
              subnets ec2 !! subnet_id = Some subnet_info ∧
              ip_in_network ip_addr (cidr_block subnet_info) = Some true)
         before →
  Forall (fun x : IpAddress =>
            is_Some (x !! "SubnetId") ∧ is_Some (x !! "Ip")) rest →
  rbind (subnet_ip_pairs (before ++ rest))
    (fun pairs => verify_subnet_ip_pairs ec2 pairs)
  = rbind (subnet_ip_pairs rest)
      (fun pairs => verify_subnet_ip_pairs ec2 pairs).
Proof.
  intros Hbefore Hrest.
  induction Hbefore
    as [|y before (subnet_id & ip_addr & subnet_info & Hid & Hip & Hy & Hin)
          Hbefore IH]; [done|].
  cbn [app]. rewrite subnet_ip_pairs_cons, Hid, Hip.
  assert (∃ pairs, subnet_ip_pairs (before ++ rest) = Ok pairs)
    as [pairs Hpairs].
  { apply subnet_ip_pairs_returns, Forall_app. split; [|done].
    eapply Forall_impl; [exact Hbefore|].
    intros z (? & ? & ? & -> & -> & _). eauto. }
  rewrite Hpairs in IH |- *. cbn [rbind] in IH |- *.
  by rewrite verify_subnet_ip_pairs_cons, Hy, Hin.
Qed.

(** An entry without one of the keys stops the comprehension, whatever
    the entries before it hold. *)
Lemma verify_subnet_entries_keys ec2 (ips : list IpAddress) :
  ¬ Forall (fun x : IpAddress =>
              is_Some (x !! "SubnetId") ∧ is_Some (x !! "Ip")) ips →
  ∃ key, (key = "SubnetId" ∨ key = "Ip") ∧
         rbind (subnet_ip_pairs ips)
           (fun pairs => verify_subnet_ip_pairs ec2 pairs)
         = Raise (KeyError key).
Proof.
  intros Hkeys. destruct (subnet_ip_pairs ips) as [pairs|e] eqn:Hpairs.
  - destruct Hkeys. apply subnet_ip_pairs_returns. eauto.
  - destruct (subnet_ip_pairs_raises _ _ Hpairs) as [->| ->]; eauto.
Qed.

Lemma verify_subnet_ips_raises env region ips e :
  _verify_subnet_ips env region ips = Raise e →
  own_error e ∨
  (missing_key_error e ∧ 2 ≤ length ips ∧
   ¬ Forall (fun x : IpAddress =>
               is_Some (x !! "SubnetId") ∧ is_Some (x !! "Ip")) ips).
Proof.
  unfold _verify_subnet_ips.
  destruct (length ips <? 2) eqn:Hlen; [intros [= <-]; by left|].
  apply Nat.ltb_ge in Hlen.
  destruct (subnet_ip_pairs ips) as [pairs|e0] eqn:Hpairs; cbn [rbind].
  - intros He. left. by eapply verify_subnet_ip_pairs_raises.
  - intros [= <-]. right. split_and!; [|done|].
    + by apply subnet_ip_pairs_raises in Hpairs.
    + intros [pairs Hok]%subnet_ip_pairs_returns. congruence.
Qed.

Lemma create_checks_raises env region crid name sgs dir ips e :
  create_checks env region crid name sgs dir ips = Raise e →
  own_error e ∨ missing_key_error e.
Proof.
  unfold create_checks, rbind.
  destruct (validate_args _) as [[]|e0] eqn:Hv.
  - destruct (_verify_subnet_ips env region ips) as [[]|e1] eqn:Hs.
    + unfold _verify_security_group_ids.
      destruct (10 <? length sgs); [intros [= <-]; by left|].
      intros He. left. by eapply verify_group_ids_raises.
    + intros [= <-]. apply verify_subnet_ips_raises in Hs. tauto.
  - intros [= <-]. apply validate_args_raises in Hv as [errs ->]. by left.
Qed.

(** Once the subnets are verified, the first of them is known to the
    network service: this is what the constructor relies on when it
    derives the host VPC. *)
Lemma verified_first_subnet env region ips :
  _verify_subnet_ips env region ips = Ok () →
  ∃ (first : IpAddress) rest subnet_id subnet_info,
    ips = first :: rest ∧
    first !! "SubnetId" = Some subnet_id ∧
    subnets (ec2_backends env region) !! subnet_id = Some subnet_info.
Proof.
  unfold _verify_subnet_ips.
  destruct ips as [|first rest]; [done|].
  destruct (length (first :: rest) <? 2); [done|].
  rewrite subnet_ip_pairs_cons.
  destruct (first !! "SubnetId") as [subnet_id|] eqn:Hsid; [|done].
  destruct (first !! "Ip") as [ip_addr|]; [|done].
  destruct (subnet_ip_pairs rest) as [pairs|]; [|done].
  cbn [rbind]. rewrite verify_subnet_ip_pairs_cons.
  destruct (subnets _ !! subnet_id) as [subnet_info|] eqn:Hf; [|done].
  intros _. by exists first, rest, subnet_id, subnet_info.
Qed.

(** *** What the two state-changing methods compute *)

(** The record that the constructor builds from a verified request. *)
Lemma new_ResolverEndpoint_verified env region endpoint_id crid sgs dir
  ips name :
  _verify_subnet_ips env region ips = Ok () →
  ∃ o, new_ResolverEndpoint env region endpoint_id crid sgs dir ips name
       = Ok o ∧
       id o = endpoint_id ∧ status o = "OPERATIONAL" ∧
       ip_address_count o = 0 ∧
       Route53Resolver.region o = region ∧ creator_request_id o = crid ∧
       Route53Resolver.name o = name ∧ security_group_ids o = sgs ∧
       direction o = dir ∧ ip_addresses o = ips ∧
       (∃ (first : IpAddress) subnet_id subnet_info,
          head ips = Some first ∧
          first !! "SubnetId" = Some subnet_id ∧
          subnets (ec2_backends env region) !! subnet_id
          = Some subnet_info ∧
          host_vpc_id o = vpc_id subnet_info).
Proof.
  intros Hv.
  destruct (verified_first_subnet _ _ _ Hv)
    as (first & rest & subnet_id & subnet_info & -> & Hsid & Hfirst).
  unfold new_ResolverEndpoint, _vpc_id_from_subnet, getitem.
  rewrite Hsid. cbn [rbind]. rewrite get_all_subnets_one, Hfirst.
  cbn [rbind]. eexists. split; [reflexivity|]. cbn.
  split_and!; try done. by exists first, subnet_id, subnet_info.
Qed.

(** [create_resolver_endpoint] either stops at the first check that
    raises, before it has touched anything, or runs to its end. *)
Lemma create_resolver_endpoint_run env region crid name sgs dir ips tgs s :
  match create_checks env region crid name sgs dir ips with
  | Raise e =>
      create_resolver_endpoint env region crid name sgs dir ips tgs s
      = (Raise e, s)
  | Ok _ =>
      ∃ o, new_ResolverEndpoint env region (new_endpoint_id env dir) crid
             sgs dir ips name = Ok o ∧
           create_resolver_endpoint env region crid name sgs dir ips tgs s
           = (Ok (length (objects s)), committed o tgs s)
  end.
Proof.
  unfold create_checks, create_resolver_endpoint, bind, lift, rbind.
  destruct (validate_args _) as [[]|e0]; [|done].
  destruct (_verify_subnet_ips env region ips) as [[]|e1] eqn:Hs; [|done].
  destruct (_verify_security_group_ids env region sgs) as [[]|e2]; [|done].
  destruct (new_ResolverEndpoint_verified env region
              (new_endpoint_id env dir) crid sgs dir ips name Hs)
    as (o & Ho & Hid & _).
  exists o. split; [done|]. rewrite Ho. cbn.
  unfold committed. by rewrite Hid.
Qed.

(** [delete_resolver_endpoint] stops at a malformed or unknown ID, before
    it has touched anything, or runs to its end. *)
Lemma delete_resolver_endpoint_run (i : string) (s : State) :
  delete_resolver_endpoint i s
  = match validate_endpoint_id (VStr i) with
    | Some msg =>
        (Raise (ValidationException [("resolverEndpointId", VStr i, msg)]),
         s)
    | None =>
        match resolver_endpoints (self s) !! i with
        | None => (Raise (ResourceNotFoundException (not_found_message i)),
                   s)
        | Some l => (Ok l, removed i l s)
        end
    end.
Proof.
  unfold delete_resolver_endpoint, _validate_resolver_endpoint_id, bind,
    lift, registry_contains, with_tagger, registry_pop, store_status, ret.
  rewrite validate_args_single.
  destruct (validate_endpoint_id (VStr i)) as [msg|]; [done|].
  destruct (resolver_endpoints (self s) !! i) as [l|] eqn:Hl.
  - rewrite bool_decide_eq_true_2 by eauto. cbn. by rewrite Hl.
  - rewrite bool_decide_eq_false_2 by (by intros [? ?]). done.
Qed.

(** *** The format of generated identifiers *)

Lemma length_string_of_list_ascii (l : list ascii) :
  String.length (String.string_of_list_ascii l) = length l.
Proof. induction l as [|c l IH]; simpl; [done | by rewrite IH]. Qed.

Lemma nth_hex_digit (n : nat) :
  is_hex_digit (nth (n `mod` 16) hex_digits "0"%char).
Proof.
  assert (Hn : n `mod` 16 < 16) by (apply Nat.mod_upper_bound; lia).
  unfold is_hex_digit. apply list_elem_of_In, nth_In.
  by change (length hex_digits) with 16.
Qed.

Lemma get_random_hex_form (choice : nat → nat) (n : nat) :
  String.length (get_random_hex choice n) = n ∧
  Forall is_hex_digit (String.list_ascii_of_string (get_random_hex choice n)).
Proof.
  unfold get_random_hex. split.
  - by rewrite length_string_of_list_ascii, length_map, length_seq.
  - rewrite String.list_ascii_of_string_of_list_ascii.
    apply Forall_forall. intros c Hc.
    apply list_elem_of_In, in_map_iff in Hc as (i & <- & _).
    apply nth_hex_digit.
Qed.

Lemma new_endpoint_id_form env dir :
  (dir = "INBOUND" →
   endpoint_id_form "rslvr-in-" (new_endpoint_id env dir)) ∧
  (dir ≠ "INBOUND" →
   endpoint_id_form "rslvr-out-" (new_endpoint_id env dir)).
Proof.
  destruct (get_random_hex_form (random_choice env) 17) as [Hlen Hhex].
  unfold new_endpoint_id.
  split; intros Hd; exists (get_random_hex (random_choice env) 17);
    (split; [|done]);
    destruct (String.eqb_spec dir "INBOUND"); try done; by str_norm.
Qed.

Lemma new_endpoint_id_generated env dir :
  generated_id (new_endpoint_id env dir).
Proof.
  destruct (new_endpoint_id_form env dir) as [Hin Hout].
  destruct (decide (dir = "INBOUND")); [left | right]; auto.
Qed.

(** *** The registry stays consistent *)

Lemma consistent_initial region_name : consistent (initial region_name).
Proof.
  repeat split; cbn; intros *; try rewrite lookup_empty; done.
Qed.

Lemma consistent_committed o tgs s :
  consistent s → status o = "OPERATIONAL" → generated_id (id o) →
  consistent (committed o tgs s).
Proof.
  intros (Hreg & Hinj & Hst) Ho Hgen.
  assert (Hbound : ∀ i l, resolver_endpoints (self s) !! i = Some l →
                          l < length (objects s)).
  { intros i l Hl. destruct (Hreg i l Hl) as (o' & Ho' & _).
    by eapply lookup_lt_Some. }
  split; [|split]; cbn.
  - intros i l. rewrite lookup_insert. case_decide as Hi.
    + intros [= <-]. exists o. rewrite <- Hi.
      by rewrite list_lookup_middle.
    + intros Hl. destruct (Hreg i l Hl) as (o' & Ho' & Hrest).
      exists o'. split; [|done].
      rewrite lookup_app_l; [done | by eapply Hbound].
  - intros i j l. rewrite !lookup_insert.
    repeat case_decide; subst; try done.
    + intros [= <-] Hj. apply Hbound in Hj. lia.
    + intros Hi [= <-]. apply Hbound in Hi. lia.
    + apply Hinj.
  - intros l o'. intros Hl. apply lookup_app_Some in Hl as [Hl|[_ Hl]].
    + by eapply Hst.
    + apply list_lookup_singleton_Some in Hl as [_ <-]. by left.
Qed.

Lemma consistent_removed i l s :
  consistent s → resolver_endpoints (self s) !! i = Some l →
  consistent (removed i l s).
Proof.
  intros (Hreg & Hinj & Hst) Hl.
  split; [|split]; cbn.
  - intros j l'. rewrite lookup_delete. case_decide as Hj; [done|].
    intros Hl'. destruct (Hreg j l' Hl') as (o' & Ho' & Hrest).
    exists o'. split; [|done].
    rewrite list_lookup_alter_ne; [done|].
    intros <-. apply Hj. by eapply Hinj.
  - intros j k l'. rewrite !lookup_delete.
    repeat case_decide; try done. apply Hinj.
  - intros l' o'. destruct (decide (l = l')) as [<-|Hne].
    + rewrite list_lookup_alter_eq.
      destruct (objects s !! l); [|done]. intros [= <-]. by right.
    + rewrite list_lookup_alter_ne by done. apply Hst.
Qed.

Lemma consistent_after c s : consistent s → consistent (after c s).
Proof.
  intros Hs.
  destruct c as [env region crid name sgs dir ips tgs|i|i|]; cbn [after].
  - pose proof (create_resolver_endpoint_run env region crid name sgs dir
                  ips tgs s) as Hrun.
    destruct (create_checks env region crid name sgs dir ips) as [[]|e]
      eqn:Hchecks.
    + destruct Hrun as (o & Ho & ->). cbn.
      unfold create_checks, rbind in Hchecks.
      destruct (validate_args _) as [[]|]; [|done].
      destruct (_verify_subnet_ips env region ips) as [[]|] eqn:Hv; [|done].
      destruct (new_ResolverEndpoint_verified env region
                  (new_endpoint_id env dir) crid sgs dir ips name Hv)
        as (o' & Ho' & Hid & Hstatus & _).
      rewrite Ho in Ho'. injection Ho' as <-.
      apply consistent_committed; [done..|].
      rewrite Hid. apply new_endpoint_id_generated.
    + by rewrite Hrun.
  - done.
  - rewrite delete_resolver_endpoint_run.
    destruct (validate_endpoint_id (VStr i)); [done|].
    destruct (resolver_endpoints (self s) !! i) as [l|] eqn:Hl; [|done].
    by apply consistent_removed.
  - destruct Hs as (_ & _ & Hst).
    repeat split; cbn; intros *; try rewrite lookup_empty; try done.
    apply Hst.
Qed.

Lemma reachable_consistent s : reachable s → consistent s.
Proof.
  induction 1 as [region_name|c s _ IH].
  - apply consistent_initial.
  - by apply consistent_after.
Qed.

Lemma reachable_after_all calls s :
  reachable s → reachable (after_all calls s).
Proof.
  revert s. induction calls as [|c calls IH]; intros s Hs; [done|].
  cbn. apply IH. by constructor.
Qed.

(** An object that is being deleted stays so through any single call. *)
Lemma deleting_after c s l o :
  objects s !! l = Some o → status o = "DELETING" →
  ∃ o', objects (after c s) !! l = Some o' ∧
        status o' = "DELETING" ∧ id o' = id o.
Proof.
  intros Hl Ho.
  destruct c as [env region crid name sgs dir ips tgs|i|i|]; cbn [after].
  - pose proof (create_resolver_endpoint_run env region crid name sgs dir
                  ips tgs s) as Hrun.
    destruct (create_checks env region crid name sgs dir ips) as [[]|e].
    + destruct Hrun as (o1 & _ & ->). cbn. exists o.
      rewrite lookup_app_l; [done | by eapply lookup_lt_Some].
    + rewrite Hrun. eauto.
  - eauto.
  - rewrite delete_resolver_endpoint_run.
    destruct (validate_endpoint_id (VStr i)); [eauto|].
    destruct (resolver_endpoints (self s) !! i) as [l'|]; [|eauto].
    cbn. destruct (decide (l' = l)) as [->|Hne].
    + exists (set_status "DELETING" o).
      by rewrite list_lookup_alter_eq, Hl.
    + exists o. by rewrite list_lookup_alter_ne.
  - eauto.
Qed.

Lemma deleting_after_all calls s l o :
  objects s !! l = Some o → status o = "DELETING" →
  ∃ o', objects (after_all calls s) !! l = Some o' ∧
        status o' = "DELETING" ∧ id o' = id o.
Proof.
  revert s o. induction calls as [|c calls IH]; intros s o Hl Ho.
  - eauto.
  - destruct (deleting_after c s l o Hl Ho) as (o1 & Hl1 & Ho1 & Hid1).
    destruct (IH (after c s) o1 Hl1 Ho1) as (o2 & Hl2 & Ho2 & Hid2).
    exists o2. cbn. repeat split; [done..|]. congruence.
Qed.

(** A call of [create_resolver_endpoint] that returns has committed the
    record that the constructor built from the request. *)
Lemma create_resolver_endpoint_returns env region crid name sgs dir ips tgs
  s l s' :
  create_resolver_endpoint env region crid name sgs dir ips tgs s
  = (Ok l, s') →
  ∃ o, l = length (objects s) ∧ s' = committed o tgs s ∧
       id o = new_endpoint_id env dir ∧ status o = "OPERATIONAL" ∧
       ip_addresses o = ips.
Proof.
  intros Hcreate.
  pose proof (create_resolver_endpoint_run env region crid name sgs dir
                ips tgs s) as Hrun.
  destruct (create_checks env region crid name sgs dir ips) as [[]|e]
    eqn:Hchecks; [|by rewrite Hrun in Hcreate].
  destruct Hrun as (o & Ho & Hrun). rewrite Hrun in Hcreate.
  injection Hcreate as <- <-.
  unfold create_checks, rbind in Hchecks.
  destruct (validate_args _) as [[]|]; [|done].
  destruct (_verify_subnet_ips env region ips) as [[]|] eqn:Hv; [|done].
  destruct (new_ResolverEndpoint_verified env region
              (new_endpoint_id env dir) crid sgs dir ips name Hv)
    as (o' & Ho' & Hid & Hstatus & _ & _ & _ & _ & _ & _ & Hips & _).
  rewrite Ho in Ho'. injection Ho' as <-. by exists o.
Qed.


End Steps.

(** *** The sample deployment *)

Lemma sample_accepts_generated_ids (i : string) :
  generated_id i →
  validate_endpoint_id (Imports := sample_imports) (VStr i) = None.
Proof.
  intros [(suffix & -> & Hlen & _)|(suffix & -> & Hlen & _)]; cbn;
    rewrite length_append, Hlen; reflexivity.
Qed.

Lemma sample_request_valid (seed : nat) :
  valid_request (imports := sample_imports) (sample_request seed).
Proof. vm_compute. reflexivity. Qed.

(** The sample request is served, and each of its defects is reported the
    way the source words it. *)
Example sample_create_returns :
  sample_create 0 "INBOUND" (Some [("team", "dns")]) sample_state
  = (Ok 0, sample_created).
Proof. vm_compute. reflexivity. Qed.

Example sample_description :
  description (imports := sample_imports) <$> objects sample_created !! 0
  = Some
      [ ("Id", FStr "rslvr-in-0123456789abcdef0");
        ("CreatorRequestId", FStr "request-1");
        ("Arn",
         FStr ("arn:aws:route53resolver:us-east-1:123456789012:"
                 +:+ "resolver-endpoint/rslvr-in-0123456789abcdef0"));
        ("Name", FOptStr (Some "endpoint"));
        ("SecurityGroupIds", FStrList ["sg-1"]);
        ("Direction", FStr "INBOUND");
        ("IpAddressCount", FInt 0);
        ("HostVPCId", FStr "vpc-1");
        ("Status", FStr "OPERATIONAL");
        ("StatusMessage",
         FStr "[Trace id: x] Creating the Resolver Endpoint");
        ("CreationTime", FStr "2021-11-08T00:00:00+00:00");
        ("ModificationTime", FStr "2021-11-08T00:00:00+00:00") ].
Proof. vm_compute. reflexivity. Qed.

Example malformed_security_group :
  create_resolver_endpoint (imports := sample_imports) (sample_env 0)
    "us-east-1" "request-1" None ["sg-1"; "group-2"] "INBOUND" sample_ips
    None sample_state
  = (Raise (InvalidParameterException
              ("Malformed security group ID: Invalid id: 'group-2' "
                 +:+ "(expecting 'sg-...')")),
     sample_state).
Proof. vm_compute. reflexivity. Qed.

Example unknown_security_group :
  create_resolver_endpoint (imports := sample_imports) (sample_env 0)
    "us-east-1" "request-1" None ["sg-2"] "INBOUND" sample_ips None
    sample_state
  = (Raise (ResourceNotFoundException
              "The security group 'sg-2' does not exist"),
     sample_state).
Proof. vm_compute. reflexivity. Qed.

Example too_many_security_groups :
  create_resolver_endpoint (imports := sample_imports) (sample_env 0)
    "us-east-1" "request-1" None (replicate 11 "sg-1") "INBOUND" sample_ips
    None sample_state
  = (Raise (InvalidParameterException
              "Maximum of 10 security groups are allowed"),
     sample_state).
Proof. vm_compute. reflexivity. Qed.

Example two_format_violations :
  fst (create_resolver_endpoint (imports := sample_imports) (sample_env 0)
         "us-east-1" "request-1" None (replicate 65 "sg-1") "SIDEWAYS"
         sample_ips None sample_state)
  = Raise (ValidationException
             [ ("direction", VStr "SIDEWAYS",
                "satisfy enum value set: [INBOUND, OUTBOUND]");
               ("securityGroupIds", VStrList (replicate 65 "sg-1"),
                "have length less than or equal to 64") ]).
Proof. vm_compute. reflexivity. Qed.

Section Claims.
Context {imports : Imports}.

(** C2, as the code has it.  [create_resolver_endpoint] is all or
    nothing.  When the batched format validation, the subnet-IP
    verification or the security-group verification fails, the call
    raises the exception of that step and the state is the one it started
    from: no entry in the registry, no tag, no object.  Whenever the call
    raises, the state is unchanged.  When all three steps pass, the call
    returns, and it returns only then.  When it returns, exactly one
    record has been built, complete with every field, and allocated under
    a reference no object had; it is registered under its ID, nothing
    else in the registry or in the tags changes, and the given tags are
    appended to those already held under that ID.  The registry grows by
    one entry when it did not list the ID; when it did, the new record
    takes the place of the listed one and the registry keeps its size. *)
Theorem create_resolver_endpoint_atomic env region crid name sgs dir ips
  tgs s :
  let out :=
    create_resolver_endpoint env region crid name sgs dir ips tgs s in
  (∀ e, validate_args (create_validators crid name sgs dir ips) = Raise e →
        out = (Raise e, s)) ∧
  (∀ e, validate_args (create_validators crid name sgs dir ips) = Ok () →
        _verify_subnet_ips env region ips = Raise e →
        out = (Raise e, s)) ∧
  (∀ e, validate_args (create_validators crid name sgs dir ips) = Ok () →
        _verify_subnet_ips env region ips = Ok () →
        _verify_security_group_ids env region sgs = Raise e →
        out = (Raise e, s)) ∧
  (∀ e, fst out = Raise e → snd out = s) ∧
  (validate_args (create_validators crid name sgs dir ips) = Ok () →
   _verify_subnet_ips env region ips = Ok () →
   _verify_security_group_ids env region sgs = Ok () →
   fst out = Ok (length (objects s))) ∧
  (∀ l, fst out = Ok l →
     validate_args (create_validators crid name sgs dir ips) = Ok () ∧
     _verify_subnet_ips env region ips = Ok () ∧
     _verify_security_group_ids env region sgs = Ok () ∧
     ∃ o, out = (Ok l, committed o tgs s) ∧
          l = length (objects s) ∧
          objects s !! l = None ∧
          objects (snd out) = objects s ++ [o] ∧
          resolver_endpoints (self (snd out))
          = <[id o := l]> (resolver_endpoints (self s)) ∧
          tagger (self (snd out))
          = tag_resource (tagger (self s)) (id o) (default [] tgs) ∧
          id o = new_endpoint_id env dir ∧ status o = "OPERATIONAL" ∧
          Route53Resolver.region o = region ∧
          creator_request_id o = crid ∧ Route53Resolver.name o = name ∧
          security_group_ids o = sgs ∧ direction o = dir ∧
          ip_addresses o = ips ∧
          (∃ (first : IpAddress) subnet_id subnet_info,
             head ips = Some first ∧
             first !! "SubnetId" = Some subnet_id ∧
             subnets (ec2_backends env region) !! subnet_id
             = Some subnet_info ∧
             host_vpc_id o = vpc_id subnet_info) ∧
          resolver_endpoints (self (snd out)) !! id o = Some l ∧
          (∀ j, j ≠ id o →
             resolver_endpoints (self (snd out)) !! j
             = resolver_endpoints (self s) !! j ∧
             tags (tagger (self (snd out))) !! j
             = tags (tagger (self s)) !! j) ∧
          list_tags_for_resource (tagger (self (snd out))) (id o)
          = list_tags_for_resource (tagger (self s)) (id o)
              ++ default [] tgs ∧
          (resolver_endpoints (self s) !! id o = None →
           size (resolver_endpoints (self (snd out)))
           = S (size (resolver_endpoints (self s)))) ∧
          (∀ l0, resolver_endpoints (self s) !! id o = Some l0 →
             size (resolver_endpoints (self (snd out)))
             = size (resolver_endpoints (self s)) ∧
             (is_Some (objects s !! l0) → l0 ≠ l))).
Proof.
  intros out. subst out.
  pose proof (create_resolver_endpoint_run env region crid name sgs dir
                ips tgs s) as Hrun.
  unfold create_checks, rbind in Hrun.
  destruct (validate_args _) as [[]|e0].
  2:{ rewrite Hrun. cbn. repeat split; try done; congruence. }
  destruct (_verify_subnet_ips env region ips) as [[]|e1] eqn:Hv.
  2:{ rewrite Hrun. cbn. repeat split; try done; congruence. }
  destruct (_verify_security_group_ids env region sgs) as [[]|e2].
  2:{ rewrite Hrun. cbn. repeat split; try done; congruence. }
  destruct Hrun as (o & Ho & ->). cbn [fst snd].
  split_and!; try done.
  intros l [= <-]. split_and!; try done. exists o.
  destruct (new_ResolverEndpoint_verified env region
              (new_endpoint_id env dir) crid sgs dir ips name Hv)
    as (o' & Ho' & Hfields).
  rewrite Ho in Ho'. injection Ho' as <-.
  destruct Hfields as (? & ? & ? & ? & ? & ? & ? & ? & ? & ?).
  assert (Hfresh : objects s !! length (objects s) = None)
    by (by apply lookup_ge_None_2).
  split_and!; try done.
  - cbn. apply lookup_insert_eq.
  - intros j Hj. cbn. by rewrite !lookup_insert_ne.
  - unfold list_tags_for_resource at 1. cbn. by rewrite lookup_insert_eq.
  - intros Hnew. cbn. by apply map_size_insert_None.
  - intros l0 Hl0. split.
    + cbn. by eapply map_size_insert_Some.
    + intros [o0 Ho0] ->. congruence.
Qed.

(** C3.  From a state that a history of calls leads to, deleting an ID
    that the registry lists returns the record registered under it: the
    call takes the record out of the registry, leaving every other entry
    alone, drops all tags keyed by the ID in the same call, and the
    record it returns, operational until then, carries the given ID and
    the status [DELETING]; it keeps that status through every later
    history of calls, and the registry never lists it again.
    Tags given at creation are listed under the ID of the new endpoint
    until it is deleted and are gone afterwards.  An object whose status
    is [DELETING] keeps that status through every later history of
    calls.  (The check of the ID format is assumed to accept the IDs that
    the backend generates.) *)
Theorem delete_resolver_endpoint_removes
  (Hids : ∀ i, generated_id i → validate_endpoint_id (VStr i) = None)
  (s : State) (i : string) (l : ref)
  (Hs : reachable s)
  (Hl : resolver_endpoints (self s) !! i = Some l) :
  (∃ o s',
     objects s !! l = Some o ∧ id o = i ∧ status o = "OPERATIONAL" ∧
     delete_resolver_endpoint i s = (Ok l, s') ∧
     resolver_endpoints (self s') = delete i (resolver_endpoints (self s)) ∧
     resolver_endpoints (self s') !! i = None ∧
     tags (tagger (self s')) = delete i (tags (tagger (self s))) ∧
     list_tags_for_resource (tagger (self s')) i = [] ∧
     objects s' !! l = Some (set_status "DELETING" o) ∧
     id (set_status "DELETING" o) = i ∧
     status (set_status "DELETING" o) = "DELETING" ∧
     ∀ calls,
       (∃ o', objects (after_all calls s') !! l = Some o' ∧
              status o' = "DELETING") ∧
       (∀ j,
          resolver_endpoints (self (after_all calls s')) !! j ≠ Some l)) ∧
  (∀ env region crid name sgs dir ips tgs l1 s1,
     create_resolver_endpoint env region crid name sgs dir ips tgs s
     = (Ok l1, s1) →
     ∃ o1 s2,
       objects s1 !! l1 = Some o1 ∧
       list_tags_for_resource (tagger (self s1)) (id o1)
       = list_tags_for_resource (tagger (self s)) (id o1)
           ++ default [] tgs ∧
       delete_resolver_endpoint (id o1) s1 = (Ok l1, s2) ∧
       list_tags_for_resource (tagger (self s2)) (id o1) = []) ∧
  (∀ calls l' o,
     objects s !! l' = Some o → status o = "DELETING" →
     ∃ o', objects (after_all calls s) !! l' = Some o' ∧
           status o' = "DELETING").
Proof.
  assert (Hdelete : ∀ s i l, reachable s →
            resolver_endpoints (self s) !! i = Some l →
            delete_resolver_endpoint i s = (Ok l, removed i l s)).
  { clear s i l Hs Hl. intros s i l Hs Hl.
    destruct (reachable_consistent s Hs) as (Hreg & _).
    destruct (Hreg i l Hl) as (o & _ & _ & _ & Hgen).
    by rewrite delete_resolver_endpoint_run, (Hids i Hgen), Hl. }
  split; [|split].
  - destruct (reachable_consistent s Hs) as (Hreg & _).
    destruct (Hreg i l Hl) as (o & Ho & Hid & Hop & _).
    exists o, (removed i l s).
    assert (Hobj : objects (removed i l s) !! l
                   = Some (set_status "DELETING" o)).
    { cbn. by rewrite list_lookup_alter_eq, Ho. }
    split_and!; try done.
    + by apply Hdelete.
    + cbn. apply lookup_delete_eq.
    + unfold list_tags_for_resource. cbn. by rewrite lookup_delete_eq.
    + intros calls.
      destruct (deleting_after_all calls _ l _ Hobj eq_refl)
        as (o' & Ho' & Hst & _).
      split; [eauto|]. intros j Hj.
      assert (Hafter : reachable (after_all calls (removed i l s))).
      { apply reachable_after_all.
        replace (removed i l s) with (after (DeleteResolverEndpoint i) s)
          by (cbn [after]; by rewrite (Hdelete s i l Hs Hl)).
        by apply reachable_after. }
      destruct (reachable_consistent _ Hafter) as (Hreg' & _).
      destruct (Hreg' j l Hj) as (o'' & Ho'' & _ & Hop'' & _).
      congruence.
  - intros env region crid name sgs dir ips tgs l1 s1 Hcreate.
    destruct (create_resolver_endpoint_returns env region crid name sgs dir
                ips tgs s l1 s1 Hcreate) as (o1 & -> & -> & _).
    exists o1, (removed (id o1) (length (objects s)) (committed o1 tgs s)).
    split_and!.
    + cbn. by apply list_lookup_middle.
    + unfold list_tags_for_resource at 1. cbn. by rewrite lookup_insert_eq.
    + apply Hdelete.
      * replace (committed o1 tgs s)
          with (after (CreateResolverEndpoint env region crid name sgs dir
                         ips tgs) s)
          by (cbn [after]; by rewrite Hcreate).
        by apply reachable_after.
      * cbn. apply lookup_insert_eq.
    + unfold list_tags_for_resource. cbn. by rewrite lookup_delete_eq.
  - intros calls l' o Hl' Ho.
    destruct (deleting_after_all calls s l' o Hl' Ho) as (o' & ? & ? & _).
    eauto.
Qed.

(** C6.  For an ID that passes the format check and that the registry
    does not list, [delete_resolver_endpoint] raises
    [ResourceNotFoundException] with a message that names the ID, and the
    state is unchanged.  Deleting a listed ID twice in a row succeeds the
    first time and raises that same exception the second time. *)
Theorem delete_unknown_resolver_endpoint (s : State) (i : string)
  (Hwf : validate_endpoint_id (VStr i) = None) :
  (resolver_endpoints (self s) !! i = None →
   delete_resolver_endpoint i s
   = (Raise (ResourceNotFoundException
               ("Resolver endpoint with ID '" +:+ i +:+ "' does not exist")),
      s)) ∧
  (∀ l, resolver_endpoints (self s) !! i = Some l →
     ∃ s1,
       delete_resolver_endpoint i s = (Ok l, s1) ∧
       delete_resolver_endpoint i s1
       = (Raise (ResourceNotFoundException
                   ("Resolver endpoint with ID '" +:+ i
                      +:+ "' does not exist")),
          s1)).
Proof.
  split.
  - intros Hl. by rewrite delete_resolver_endpoint_run, Hwf, Hl.
  - intros l Hl. exists (removed i l s). split.
    + by rewrite delete_resolver_endpoint_run, Hwf, Hl.
    + rewrite delete_resolver_endpoint_run, Hwf. cbn.
      by rewrite lookup_delete_eq.
Qed.


(** C7, as the code has it.  The ID of a created endpoint is
    ['rslvr-in-'] followed by 17 hexadecimal digits when the direction is
    [INBOUND], and ['rslvr-out-'] followed by 17 hexadecimal digits
    otherwise; the digits are the ones the random generator hands out and
    nothing compares the ID with those in the registry.  The endpoint is
    stored under that ID: it is a new entry when the ID was not listed,
    and it takes the place of the listed endpoint when it was. *)
Theorem created_endpoint_id env region crid name sgs dir ips tgs s l s'
  (Hcreate :
     create_resolver_endpoint env region crid name sgs dir ips tgs s
     = (Ok l, s')) :
  ∃ o, objects s' !! l = Some o ∧
       id o = "rslvr-" +:+ (if String.eqb dir "INBOUND" then "in" else "out")
                +:+ "-" +:+ get_random_hex (random_choice env) 17 ∧
       (dir = "INBOUND" → endpoint_id_form "rslvr-in-" (id o)) ∧
       (dir ≠ "INBOUND" → endpoint_id_form "rslvr-out-" (id o)) ∧
       resolver_endpoints (self s')
       = <[id o := l]> (resolver_endpoints (self s)) ∧
       (resolver_endpoints (self s) !! id o = None →
        size (resolver_endpoints (self s'))
        = S (size (resolver_endpoints (self s)))) ∧
       (is_Some (resolver_endpoints (self s) !! id o) →
        size (resolver_endpoints (self s'))
        = size (resolver_endpoints (self s))).
Proof.
  destruct (create_resolver_endpoint_returns env region crid name sgs dir
              ips tgs s l s' Hcreate) as (o & -> & -> & Hid & _).
  destruct (new_endpoint_id_form env dir) as [Hin Hout'].
  exists o. cbn. split_and!.
  - by apply list_lookup_middle.
  - done.
  - rewrite Hid. apply Hin.
  - rewrite Hid. apply Hout'.
  - done.
  - apply map_size_insert_None.
  - apply map_size_insert_Some.
Qed.

(** No call of [create_resolver_endpoint] ends with the limit-exceeded
    exception. *)
Lemma create_never_limited (r : CreateRequest) (s : State) msg :
  fst (submit r s) ≠ Raise (LimitExceededException msg).
Proof.
  unfold submit.
  pose proof (create_resolver_endpoint_run (req_env r) (req_region r)
                (req_creator_request_id r) (req_name r)
                (req_security_group_ids r) (req_direction r)
                (req_ip_addresses r) (req_tags r) s) as Hrun.
  destruct (create_checks _ _ _ _ _ _ _) as [[]|e] eqn:Hchecks.
  - by destruct Hrun as (o & _ & ->).
  - rewrite Hrun. cbn. intros [= ->].
    by destruct (create_checks_raises _ _ _ _ _ _ _ _ Hchecks)
      as [?|[?|?]].
Qed.

Lemma submit_valid (r : CreateRequest) (s : State) :
  valid_request r →
  ∃ o, submit r s = (Ok (length (objects s)), committed o (req_tags r) s).
Proof.
  unfold valid_request, submit. intros Hvalid.
  pose proof (create_resolver_endpoint_run (req_env r) (req_region r)
                (req_creator_request_id r) (req_name r)
                (req_security_group_ids r) (req_direction r)
                (req_ip_addresses r) (req_tags r) s) as Hrun.
  rewrite Hvalid in Hrun. destruct Hrun as (o & _ & Hrun). eauto.
Qed.

(** C8, as the code has it.  [create_resolver_endpoint] knows no quota.
    Any number of valid requests, submitted one after the other from any
    state, all succeed, each allocating its endpoint; and no request,
    valid or not, ever ends with the limit-exceeded exception. *)
Theorem create_has_no_quota (rs : list CreateRequest) (s : State)
  (Hvalid : Forall valid_request rs) :
  Forall succeeded (fst (submit_all rs s)) ∧
  length (fst (submit_all rs s)) = length rs ∧
  length (objects (snd (submit_all rs s)))
  = length (objects s) + length rs ∧
  ∀ (r : CreateRequest) (s' : State) msg,
    fst (submit r s') ≠ Raise (LimitExceededException msg).
Proof.
  assert (Hrun : Forall succeeded (fst (submit_all rs s)) ∧
                 length (fst (submit_all rs s)) = length rs ∧
                 length (objects (snd (submit_all rs s)))
                 = length (objects s) + length rs).
  { revert s. induction Hvalid as [|r rs Hr _ IH]; intros s.
    - cbn. split_and!; [constructor | done | lia].
    - cbn [submit_all]. destruct (submit_valid r s Hr) as (o & ->).
      destruct (IH (committed o (req_tags r) s)) as (IH1 & IH2 & IH3).
      destruct (submit_all rs _) as [outs s'']. cbn in *. split_and!.
      + by constructor.
      + by rewrite IH2.
      + rewrite IH3, length_app. cbn. lia. }
  destruct Hrun as (? & ? & ?).
  split_and!; try done. apply create_never_limited.
Qed.

(** C10.  Whatever the IP addresses of the request, and however many, the
    endpoint that [create_resolver_endpoint] returns describes itself
    with [IpAddressCount] 0 and with the status [OPERATIONAL], the status
    it was constructed with.  No object that a history of calls leads to
    has the status [CREATING]: a status is [OPERATIONAL] or [DELETING]. *)
Theorem created_endpoint_description env region crid name sgs dir ips tgs
  s l s'
  (Hcreate :
     create_resolver_endpoint env region crid name sgs dir ips tgs s
     = (Ok l, s')) :
  (∃ o, objects s' !! l = Some o ∧ ip_addresses o = ips ∧
        dict_get (description o) "IpAddressCount" = Some (FInt 0) ∧
        dict_get (description o) "Status" = Some (FStr "OPERATIONAL") ∧
        status o = "OPERATIONAL") ∧
  (∀ s0 l0 o0, reachable s0 → objects s0 !! l0 = Some o0 →
     status o0 ≠ "CREATING" ∧
     dict_get (description o0) "IpAddressCount" = Some (FInt 0)).
Proof.
  split.
  - destruct (create_resolver_endpoint_returns env region crid name sgs dir
                ips tgs s l s' Hcreate) as (o & -> & -> & _ & Hst & Hips).
    exists o. cbn [objects committed]. split_and!; try done.
    + by apply list_lookup_middle.
    + cbn. by rewrite Hst.
  - intros s0 l0 o0 Hs0 Hl0.
    destruct (reachable_consistent s0 Hs0) as (_ & _ & Hstatus).
    split; [|done].
    destruct (Hstatus l0 o0 Hl0) as [-> | ->]; done.
Qed.

End Claims.

Lemma create_resolver_endpoint_atomic_witness :
  snd (sample_create_at [ ip_entry "subnet-a" "10.0.9.9";
                          ip_entry "subnet-b" "10.0.2.20" ]
         sample_state)
  = sample_state ∧
  ∃ o,
    sample_create 0 "INBOUND" (Some [("team", "dns")]) sample_state
    = (Ok 0, committed o (Some [("team", "dns")]) sample_state) ∧
    id o = "rslvr-in-0123456789abcdef0" ∧
    size (resolver_endpoints
            (self (snd (sample_create 0 "INBOUND" (Some [("team", "dns")])
                          sample_state))))
    = 1.
Proof.
  split.
  - destruct (create_resolver_endpoint_atomic (imports := sample_imports)
                (sample_env 0) "us-east-1" "request-1" (Some "endpoint")
                ["sg-1"] "INBOUND"
                [ ip_entry "subnet-a" "10.0.9.9";
                  ip_entry "subnet-b" "10.0.2.20" ]
                None sample_state)
      as (_ & _ & _ & Hraise & _).
    apply (Hraise
             (InvalidRequestException
                ("IP address '10.0.9.9' is either not in subnet "
                   +:+ "'subnet-a' CIDR range or is reserved"))).
    vm_compute. reflexivity.
  - destruct (create_resolver_endpoint_atomic (imports := sample_imports)
                (sample_env 0) "us-east-1" "request-1" (Some "endpoint")
                ["sg-1"] "INBOUND" sample_ips (Some [("team", "dns")])
                sample_state)
      as (_ & _ & _ & _ & Hreturns & Hcommitted).
    destruct (Hcommitted 0)
      as (_ & _ & _ & o & Hout & _ & _ & _ & _ & _ & Hid & _ & _ & _ & _
          & _ & _ & _ & _ & _ & _ & _ & Hnew & _).
    + apply Hreturns; vm_compute; reflexivity.
    + exists o. split; [exact Hout|]. split.
      * rewrite Hid. vm_compute. reflexivity.
      * apply Hnew. rewrite Hid. vm_compute. reflexivity.
Defined.

(** C2, as the specification words it, fails when the random generator
    repeats itself: the second of two successful creations adds no entry
    to the registry, which lists one endpoint before and after it; the
    endpoint created first, still operational, is no longer listed under
    any ID, and the tags it was given are handed on to the new one. *)
Lemma create_replaces_counterexample :
  let id := "rslvr-in-0123456789abcdef0" in
  let s1 :=
    snd (sample_create 0 "INBOUND" (Some [("team", "dns")]) sample_state) in
  let out := sample_create 0 "INBOUND" (Some [("env", "prod")]) s1 in
  fst (sample_create 0 "INBOUND" (Some [("team", "dns")]) sample_state)
  = Ok 0 ∧
  map_to_list (resolver_endpoints (self s1)) = [(id, 0)] ∧
  fst out = Ok 1 ∧
  map_to_list (resolver_endpoints (self (snd out))) = [(id, 1)] ∧
  status <$> objects (snd out) !! 0 = Some "OPERATIONAL" ∧
  list_tags_for_resource (tagger (self (snd out))) id
  = [("team", "dns"); ("env", "prod")].
Proof. vm_compute. split_and!; reflexivity. Qed.

Lemma sample_created_reachable :
  reachable (imports := sample_imports) sample_created.
Proof. apply reachable_after, reachable_initial. Qed.

Lemma delete_resolver_endpoint_removes_witness :
  resolver_endpoints (self sample_created) !! "rslvr-in-0123456789abcdef0"
  = Some 0 ∧
  list_tags_for_resource (tagger (self sample_created))
    "rslvr-in-0123456789abcdef0" = [("team", "dns")] ∧
  ∃ o s',
    delete_resolver_endpoint (imports := sample_imports)
      "rslvr-in-0123456789abcdef0" sample_created = (Ok 0, s') ∧
    list_tags_for_resource (tagger (self s')) "rslvr-in-0123456789abcdef0"
    = [] ∧
    objects s' !! 0 = Some (set_status "DELETING" o).
Proof.
  split; [vm_compute; reflexivity|]. split; [vm_compute; reflexivity|].
  destruct (delete_resolver_endpoint_removes (imports := sample_imports)
              sample_accepts_generated_ids sample_created
              "rslvr-in-0123456789abcdef0" 0 sample_created_reachable)
    as ((o & s' & _ & _ & _ & Hdel & _ & _ & _ & Htags & Hobj & _) & _).
  - vm_compute. reflexivity.
  - exists o, s'. auto.
Defined.

Lemma delete_unknown_resolver_endpoint_witness :
  resolver_endpoints (self sample_created) !! "rslvr-in-ffffffffffffffffff"
  = None ∧
  delete_resolver_endpoint (imports := sample_imports)
    "rslvr-in-ffffffffffffffffff" sample_created
  = (Raise (ResourceNotFoundException
              ("Resolver endpoint with ID 'rslvr-in-ffffffffffffffffff'"
                 +:+ " does not exist")),
     sample_created).
Proof.
  split; [vm_compute; reflexivity|].
  destruct (delete_unknown_resolver_endpoint (imports := sample_imports)
              sample_created "rslvr-in-ffffffffffffffffff")
    as [Hunknown _].
  - vm_compute. reflexivity.
  - apply Hunknown. vm_compute. reflexivity.
Defined.



Lemma created_endpoint_id_witness :
  ∃ o, objects (snd (sample_create 0 "OUTBOUND" None sample_state)) !! 0
       = Some o ∧
       id o = "rslvr-out-0123456789abcdef0".
Proof.
  destruct (created_endpoint_id (imports := sample_imports) (sample_env 0)
              "us-east-1" "request-1" (Some "endpoint") ["sg-1"] "OUTBOUND"
              sample_ips None sample_state 0
              (snd (sample_create 0 "OUTBOUND" None sample_state)))
    as (o & Ho & Hid & _).
  - vm_compute. reflexivity.
  - exists o. split; [exact Ho|]. rewrite Hid. vm_compute. reflexivity.
Defined.

(** C7, as the specification words it, fails when the random generator
    repeats itself: the second endpoint is given the ID of the first, which
    the registry lists, and takes its place; the registry holds one entry
    after two successful creations. *)
Lemma generated_id_collision_counterexample :
  let s1 := snd (sample_create 0 "INBOUND" None sample_state) in
  let out := sample_create 0 "INBOUND" None s1 in
  resolver_endpoints (self s1) !! "rslvr-in-0123456789abcdef0" = Some 0 ∧
  fst out = Ok 1 ∧
  id <$> objects (snd out) !! 1 = Some "rslvr-in-0123456789abcdef0" ∧
  resolver_endpoints (self (snd out)) !! "rslvr-in-0123456789abcdef0"
  = Some 1 ∧
  size (resolver_endpoints (self (snd out))) = 1.
Proof. vm_compute. split_and!; reflexivity. Qed.

Lemma create_has_no_quota_witness :
  Forall succeeded
    (fst (submit_all (imports := sample_imports)
            [sample_request 0; sample_request 1; sample_request 2]
            sample_state)).
Proof.
  apply (create_has_no_quota (imports := sample_imports)
           [sample_request 0; sample_request 1; sample_request 2]
           sample_state).
  repeat constructor; apply sample_request_valid.
Defined.

(** C8, as the specification words it, fails for every N: three valid
    requests in a row succeed and leave three endpoints in the registry,
    and no number of earlier creations makes the next valid request end
    with the limit-exceeded exception. *)
Lemma quota_counterexample :
  (let out := submit_all (imports := sample_imports)
                [sample_request 0; sample_request 1; sample_request 2]
                sample_state in
   fst out = [Ok 0; Ok 1; Ok 2] ∧
   size (resolver_endpoints (self (snd out))) = 3) ∧
  ¬ ∃ N, quota_enforced (imports := sample_imports) N.
Proof.
  split; [vm_compute; split; reflexivity|].
  intros [N Hquota].
  specialize (Hquota None (replicate N (sample_request 0)) (sample_request 0)).
  destruct (submit_all _ _) as [outs s].
  destruct Hquota as (_ & before & after_ & Hlast).
  - apply length_replicate.
  - apply Forall_replicate, sample_request_valid.
  - apply sample_request_valid.
  - eapply (create_never_limited (imports := sample_imports)).
    by rewrite Hlast.
Qed.

(** C9.  The registry of the sample lists the endpoint, and
    [get_resolver_endpoint] on its ID returns [None]: the body of the
    method is [pass]. *)
Theorem get_resolver_endpoint_returns_nothing :
  resolver_endpoints (self sample_created) !! "rslvr-in-0123456789abcdef0"
  = Some 0 ∧
  get_resolver_endpoint "rslvr-in-0123456789abcdef0" sample_created
  = (Ok None, sample_created).
Proof. split; [vm_compute; reflexivity | reflexivity]. Qed.

Lemma created_endpoint_description_witness :
  ∃ o, objects (snd (sample_create 0 "INBOUND" None sample_state)) !! 0
       = Some o ∧
       length (ip_addresses o) = 2 ∧
       dict_get (description (imports := sample_imports) o) "IpAddressCount"
       = Some (FInt 0) ∧
       dict_get (description (imports := sample_imports) o) "Status"
       = Some (FStr "OPERATIONAL").
Proof.
  destruct (created_endpoint_description (imports := sample_imports)
              (sample_env 0) "us-east-1" "request-1" (Some "endpoint")
              ["sg-1"] "INBOUND" sample_ips None sample_state 0
              (snd (sample_create 0 "INBOUND" None sample_state)))
    as ((o & Ho & Hips & Hcount & Hstatus & _) & _).
  - vm_compute. reflexivity.
  - exists o. rewrite Hips. auto.
Defined.

(** ** Beyond the stated claims: the rest of [models.py] *)

Section Verifications.
Context {imports : Imports}.

(** *** [_verify_security_group_ids] *)

Lemma verify_group_ids_ok ec2 group_ids :
  verify_group_ids ec2 group_ids = Ok () ↔
  Forall (fun g => String.prefix "sg-" g = true ∧ g ∈ security_groups ec2)
         group_ids.
Proof.
  induction group_ids as [|g rest IH].
  - split; [constructor | done].
  - cbn [verify_group_ids]. rewrite describe_security_groups_one.
    rewrite Forall_cons.
    destruct (String.prefix "sg-" g) eqn:Hp; cbn [negb].
    + destruct (decide (g ∈ security_groups ec2)) as [Hin|Hout];
        cbn [try_except rbind].
      * rewrite IH. tauto.
      * split; [done | tauto].
    + split; [done|]. intros [[? _] _]. done.
Qed.

Lemma verify_group_ids_stops ec2 before g behind :
  Forall (fun g => String.prefix "sg-" g = true ∧ g ∈ security_groups ec2)
         before →
  verify_group_ids ec2 (before ++ g :: behind)
  = verify_group_ids ec2 (g :: behind).
Proof.
  induction 1 as [|g0 before [Hp Hin] _ IH]; [done|].
  cbn [app verify_group_ids]. rewrite Hp, describe_security_groups_one.
  cbn [negb]. rewrite decide_True by done. exact IH.
Qed.

(** X1.  [_verify_security_group_ids] passes exactly the lists of at most
    ten group IDs that all start with ["sg-"] and all exist in the network
    service of the region; a list of more than ten is refused for its
    length alone, whatever it holds. *)
Theorem security_groups_verified_iff env region sgs :
  (_verify_security_group_ids env region sgs = Ok () ↔
   length sgs ≤ 10 ∧
   Forall (fun g => String.prefix "sg-" g = true ∧
                    g ∈ security_groups (ec2_backends env region)) sgs) ∧
  (10 < length sgs →
   _verify_security_group_ids env region sgs
   = Raise (InvalidParameterException
              "Maximum of 10 security groups are allowed")).
Proof.
  unfold _verify_security_group_ids.
  destruct (10 <? length sgs) eqn:Hlen.
  - apply Nat.ltb_lt in Hlen. split; [|done].
    split; [done | lia].
  - apply Nat.ltb_ge in Hlen. split; [|lia].
    rewrite verify_group_ids_ok. tauto.
Qed.

(** X2.  Among at most ten groups, the first one that is malformed or
    unknown decides the outcome: a group ID that does not start with
    ["sg-"] is reported as malformed with [InvalidParameterException], and
    a well-formed one that the network service does not hold as missing
    with [ResourceNotFoundException] (the foreign not-found error is
    re-labelled); either message cites that group ID. *)
Theorem first_offending_security_group env region sgs before g behind
  (Hsgs : sgs = before ++ g :: behind)
  (Hlen : length sgs ≤ 10)
  (Hbefore :
     Forall (fun g => String.prefix "sg-" g = true ∧
                      g ∈ security_groups (ec2_backends env region))
            before) :
  (String.prefix "sg-" g = false →
   _verify_security_group_ids env region sgs
   = Raise (InvalidParameterException
              ("Malformed security group ID: Invalid id: '" +:+ g
                 +:+ "' (expecting 'sg-...')"))) ∧
  (String.prefix "sg-" g = true →
   g ∉ security_groups (ec2_backends env region) →
   _verify_security_group_ids env region sgs
   = Raise (ResourceNotFoundException
              ("The security group '" +:+ g +:+ "' does not exist"))).
Proof.
  unfold _verify_security_group_ids.
  destruct (10 <? length sgs) eqn:Hlt; [apply Nat.ltb_lt in Hlt; lia|].
  subst sgs. rewrite (verify_group_ids_stops _ _ _ _ Hbefore).
  cbn [verify_group_ids]. rewrite describe_security_groups_one.
  split.
  - intros ->. cbn [negb]. by str_norm.
  - intros -> Hout. cbn [negb]. by rewrite decide_False.
Qed.

(** *** [_verify_subnet_ips] *)

(** X3.  [_verify_subnet_ips] passes exactly the lists of at least two IP
    addresses in which every entry names a subnet that the network service
    of the region holds and an address inside that subnet's CIDR block. *)
Theorem subnet_ips_verified_iff env region ips :
  _verify_subnet_ips env region ips = Ok () ↔
  2 ≤ length ips ∧
  Forall (fun x : IpAddress =>
            ∃ subnet_id ip_addr subnet_info,
              x !! "SubnetId" = Some subnet_id ∧
              x !! "Ip" = Some ip_addr ∧
              subnets (ec2_backends env region) !! subnet_id
              = Some subnet_info ∧
              ip_in_network ip_addr (cidr_block subnet_info) = Some true)
         ips.
Proof.
  unfold _verify_subnet_ips.
  destruct (length ips <? 2) eqn:Hlen.
  - apply Nat.ltb_lt in Hlen. split; [done | lia].
  - apply Nat.ltb_ge in Hlen. rewrite verify_subnet_entries_ok. tauto.
Qed.

(** X4.  Among at least two IP addresses, when the first entry that fails
    names an existing subnet and every entry behind it carries both keys,
    [SubnetId] and [Ip], an address outside that subnet's CIDR block is
    refused with [InvalidRequestException], the message citing the address
    and the subnet ID, and an address that does not parse ends the check
    with Python's [ValueError].  When an entry behind it lacks a key, the
    check ends with Python's [KeyError] for that key instead, whatever the
    address is. *)
Theorem first_offending_ip_address env region ips before (x : IpAddress)
  behind subnet_id ip_addr subnet_info
  (Hips : ips = before ++ x :: behind)
  (Hlen : 2 ≤ length ips)
  (Hbefore :
     Forall (fun y : IpAddress =>
               ∃ subnet_id ip_addr subnet_info,
                 y !! "SubnetId" = Some subnet_id ∧
                 y !! "Ip" = Some ip_addr ∧
                 subnets (ec2_backends env region) !! subnet_id
                 = Some subnet_info ∧
                 ip_in_network ip_addr (cidr_block subnet_info) = Some true)
            before)
  (Hid : x !! "SubnetId" = Some subnet_id)
  (Hip : x !! "Ip" = Some ip_addr)
  (Hsubnet :
     subnets (ec2_backends env region) !! subnet_id = Some subnet_info) :
  (Forall (fun y : IpAddress =>
             is_Some (y !! "SubnetId") ∧ is_Some (y !! "Ip")) behind →
   (ip_in_network ip_addr (cidr_block subnet_info) = Some false →
    _verify_subnet_ips env region ips
    = Raise (InvalidRequestException
               ("IP address '" +:+ ip_addr +:+ "' is either not in subnet '"
                  +:+ subnet_id +:+ "' CIDR range or is reserved"))) ∧
   (ip_in_network ip_addr (cidr_block subnet_info) = None →
    _verify_subnet_ips env region ips = Raise ValueError)) ∧
  (¬ Forall (fun y : IpAddress =>
               is_Some (y !! "SubnetId") ∧ is_Some (y !! "Ip")) behind →
   ∃ key, (key = "SubnetId" ∨ key = "Ip") ∧
          _verify_subnet_ips env region ips = Raise (KeyError key)).
Proof.
  unfold _verify_subnet_ips.
  destruct (length ips <? 2) eqn:Hlt; [apply Nat.ltb_lt in Hlt; lia|].
  subst ips. split.
  - intros Hkeys.
    rewrite (verify_subnet_entries_stops _ _ _ Hbefore)
      by (constructor; [split; eauto | done]).
    apply subnet_ip_pairs_returns in Hkeys as [pairs Hpairs].
    rewrite subnet_ip_pairs_cons, Hid, Hip, Hpairs. cbn [rbind].
    rewrite verify_subnet_ip_pairs_cons, Hsubnet.
    split; intros ->; [by str_norm | done].
  - intros Hkeys. apply verify_subnet_entries_keys.
    rewrite Forall_app, Forall_cons. tauto.
Qed.

End Verifications.

Section Histories.
Context {imports : Imports}.

Lemma reachable_history region_name calls :
  reachable (after_all calls (initial region_name)).
Proof. apply reachable_after_all, reachable_initial. Qed.

(** X5.  Whatever calls have been made since the backend was built, every
    ID in its registry leads to a stored endpoint that carries this very
    ID, is [OPERATIONAL], and was generated as ['rslvr-in-'] or
    ['rslvr-out-'] plus 17 hexadecimal digits; and no endpoint is
    registered under two IDs. *)
Theorem registry_invariant region_name calls :
  let s := after_all calls (initial region_name) in
  (∀ i l, resolver_endpoints (self s) !! i = Some l →
     ∃ o, objects s !! l = Some o ∧ id o = i ∧
          status o = "OPERATIONAL" ∧ generated_id i) ∧
  (∀ i j l, resolver_endpoints (self s) !! i = Some l →
     resolver_endpoints (self s) !! j = Some l → i = j).
Proof.
  intros s.
  destruct (reachable_consistent s (reachable_history region_name calls))
    as (Hreg & Hinj & _).
  by split.
Qed.

(** *** Tags follow the registry *)

Lemma tags_within_registry_after c s :
  tags_within_registry s → tags_within_registry (after c s).
Proof.
  intros Hs.
  destruct c as [env region crid name sgs dir ips tgs|i|i|]; cbn [after].
  - pose proof (create_resolver_endpoint_run env region crid name sgs dir
                  ips tgs s) as Hrun.
    destruct (create_checks env region crid name sgs dir ips) as [[]|e].
    + destruct Hrun as (o & _ & ->). intros j. cbn.
      rewrite !lookup_insert. case_decide; [done | apply Hs].
    + by rewrite Hrun.
  - done.
  - rewrite delete_resolver_endpoint_run.
    destruct (validate_endpoint_id (VStr i)); [done|].
    destruct (resolver_endpoints (self s) !! i) as [l|]; [|done].
    intros j. cbn. rewrite !lookup_delete. case_decide; [done | apply Hs].
  - intros j _. cbn. apply lookup_empty.
Qed.

Lemma tags_within_registry_reachable s :
  reachable s → tags_within_registry s.
Proof.
  induction 1 as [region_name|c s _ IH].
  - intros i _. cbn. apply lookup_empty.
  - by apply tags_within_registry_after.
Qed.

(** X6.  Whatever calls have been made since the backend was built, the
    tagging service holds no tags for an ID that is not in the registry:
    deletion and reset never leave tags behind. *)
Theorem no_orphan_tags region_name calls i
  (Hgone : resolver_endpoints (self (after_all calls (initial region_name)))
             !! i = None) :
  tags (tagger (self (after_all calls (initial region_name)))) !! i = None ∧
  list_tags_for_resource
    (tagger (self (after_all calls (initial region_name)))) i = [].
Proof.
  pose proof (tags_within_registry_reachable _
                (reachable_history region_name calls) i Hgone) as Htags.
  split; [done|]. unfold list_tags_for_resource. by rewrite Htags.
Qed.

(** *** What a call leaves alone *)

(** X7.  A successful [create_resolver_endpoint] touches nothing but its
    own entry: the registry entry and the tags of every other ID are as
    before, every endpoint object that existed is unchanged, exactly one
    object is new, and the region name of the backend is kept. *)
Theorem create_resolver_endpoint_frame env region crid name sgs dir ips tgs
  s l s'
  (Hcreate :
     create_resolver_endpoint env region crid name sgs dir ips tgs s
     = (Ok l, s')) :
  (∀ j, j ≠ new_endpoint_id env dir →
     resolver_endpoints (self s') !! j = resolver_endpoints (self s) !! j ∧
     list_tags_for_resource (tagger (self s')) j
     = list_tags_for_resource (tagger (self s)) j) ∧
  (∀ l' o, objects s !! l' = Some o → objects s' !! l' = Some o) ∧
  length (objects s') = S (length (objects s)) ∧
  region_name (self s') = region_name (self s).
Proof.
  destruct (create_resolver_endpoint_returns env region crid name sgs dir
              ips tgs s l s' Hcreate) as (o & -> & -> & Hid & _).
  split_and!.
  - intros j Hj. unfold list_tags_for_resource at 1. cbn.
    rewrite Hid, !lookup_insert_ne by done. done.
  - intros l' o' Hl'. cbn. apply lookup_app_l_Some. done.
  - cbn. rewrite length_app. cbn. lia.
  - done.
Qed.

(** X8.  A successful [delete_resolver_endpoint] touches nothing but the
    endpoint it deletes: the ID was registered, the registry entry and the
    tags of every other ID are as before, every other endpoint object is
    unchanged, no object is dropped, and the region name is kept. *)
Theorem delete_resolver_endpoint_frame i s l s'
  (Hdelete : delete_resolver_endpoint i s = (Ok l, s')) :
  resolver_endpoints (self s) !! i = Some l ∧
  (∀ j, j ≠ i →
     resolver_endpoints (self s') !! j = resolver_endpoints (self s) !! j ∧
     list_tags_for_resource (tagger (self s')) j
     = list_tags_for_resource (tagger (self s)) j) ∧
  (∀ l', l' ≠ l → objects s' !! l' = objects s !! l') ∧
  length (objects s') = length (objects s) ∧
  region_name (self s') = region_name (self s).
Proof.
  rewrite delete_resolver_endpoint_run in Hdelete.
  destruct (validate_endpoint_id (VStr i)); [done|].
  destruct (resolver_endpoints (self s) !! i) as [l0|] eqn:Hl; [|done].
  injection Hdelete as <- <-. split_and!.
  - done.
  - intros j Hj. unfold list_tags_for_resource. cbn.
    by rewrite !lookup_delete_ne.
  - intros l' Hl'. cbn. by rewrite list_lookup_alter_ne.
  - cbn. apply length_alter.
  - done.
Qed.

(** X9.  From a state that a history of calls leads to, creating an
    endpoint under an ID that was not registered and deleting it again
    gives back the backend as it was, registry and tags included; what
    remains is the endpoint object itself, now [DELETING].  (The check of
    the ID format is assumed to accept the IDs that the backend
    generates.) *)
Theorem create_then_delete_restores
  (Hids : ∀ i, generated_id i → validate_endpoint_id (VStr i) = None)
  env region crid name sgs dir ips tgs s l s1
  (Hs : reachable s)
  (Hcreate :
     create_resolver_endpoint env region crid name sgs dir ips tgs s
     = (Ok l, s1))
  (Hfresh :
     resolver_endpoints (self s) !! new_endpoint_id env dir = None) :
  ∃ o, objects s1 !! l = Some o ∧
       delete_resolver_endpoint (new_endpoint_id env dir) s1
       = (Ok l,
          {| objects := objects s ++ [set_status "DELETING" o];
             self := self s |}).
Proof.
  destruct (create_resolver_endpoint_returns env region crid name sgs dir
              ips tgs s l s1 Hcreate) as (o & -> & -> & Hid & _).
  pose proof (tags_within_registry_reachable s Hs _ Hfresh) as Htags.
  exists o. split; [cbn; by apply list_lookup_middle|].
  rewrite delete_resolver_endpoint_run,
    (Hids _ (new_endpoint_id_generated env dir)).
  cbn. rewrite Hid, lookup_insert_eq. unfold removed. cbn.
  f_equal. f_equal.
  - replace (length (objects s)) with (length (objects s) + 0) at 1 by lia.
    by rewrite alter_app_r.
  - clear Hcreate. destruct (self s) as [rn reg [held]].
    cbn in Hfresh, Htags |- *.
    unfold delete_all_tags_for_resource, tag_resource. cbn.
    rewrite ?Hid. by rewrite !delete_insert_id.
Qed.

(** One call leaves an object as it is, or marks it as being deleted. *)
Lemma object_after c s l o :
  objects s !! l = Some o →
  ∃ o', objects (after c s) !! l = Some o' ∧
        (o' = o ∨ o' = set_status "DELETING" o).
Proof.
  intros Hl.
  destruct c as [env region crid name sgs dir ips tgs|i|i|]; cbn [after].
  - pose proof (create_resolver_endpoint_run env region crid name sgs dir
                  ips tgs s) as Hrun.
    destruct (create_checks env region crid name sgs dir ips) as [[]|e].
    + destruct Hrun as (o1 & _ & ->). cbn. exists o.
      split; [|by left]. by apply lookup_app_l_Some.
    + rewrite Hrun. eauto.
  - eauto.
  - rewrite delete_resolver_endpoint_run.
    destruct (validate_endpoint_id (VStr i)); [eauto|].
    destruct (resolver_endpoints (self s) !! i) as [l'|]; [|eauto].
    cbn. destruct (decide (l' = l)) as [->|Hne].
    + exists (set_status "DELETING" o).
      rewrite list_lookup_alter_eq, Hl. eauto.
    + exists o. rewrite list_lookup_alter_ne by done. eauto.
  - eauto.
Qed.

(** X10.  A reference to an endpoint object stays good through every
    history of calls: the object is never dropped, and it is either
    exactly as it was or as it was with its status set to [DELETING]; no
    other field of an endpoint is ever rewritten. *)
Theorem references_stay_valid calls s l o
  (Ho : objects s !! l = Some o) :
  ∃ o', objects (after_all calls s) !! l = Some o' ∧
        (o' = o ∨ o' = set_status "DELETING" o).
Proof.
  revert s o Ho. induction calls as [|c calls IH]; intros s o Ho.
  - eauto.
  - destruct (object_after c s l o Ho) as (o1 & Ho1 & Hstep).
    destruct (IH (after c s) o1 Ho1) as (o2 & Ho2 & Hrest).
    exists o2. split; [done|].
    destruct Hstep as [-> | ->]; [done|].
    destruct Hrest as [-> | ->]; by right.
Qed.

End Histories.

Section Records.
Context {imports : Imports}.

(** *** [ResolverEndpoint.__init__], [description] and [arn] *)

(** The constructor decides every field but the host VPC from its
    arguments and from the clock. *)
Lemma new_ResolverEndpoint_record env region endpoint_id crid sgs dir ips
  name o :
  new_ResolverEndpoint env region endpoint_id crid sgs dir ips name = Ok o →
  o = {| Route53Resolver.region := region;
         creator_request_id := crid;
         Route53Resolver.name := name;
         security_group_ids := sgs;
         direction := dir;
         ip_addresses := ips;
         id := endpoint_id;
         ip_address_count := 0;
         host_vpc_id := host_vpc_id o;
         status := "OPERATIONAL";
         status_message := "[Trace id: x] Creating the Resolver Endpoint";
         creation_time := utcnow env 0;
         modification_time := utcnow env 1 |}.
Proof.
  unfold new_ResolverEndpoint, rbind.
  destruct (_vpc_id_from_subnet env region ips); [|done].
  by intros [= <-].
Qed.

(** X11.  The endpoint that [create_resolver_endpoint] returns describes
    itself with the request it was made from: the creator request ID, the
    name, the security groups and the direction as given, the generated ID
    and the ARN built from region, account and that ID, the VPC of the
    subnet of the first IP address as host VPC, and the two clock readings
    as creation and modification time. *)
Theorem created_endpoint_describes_request env region crid name sgs dir ips
  tgs s l s'
  (Hcreate :
     create_resolver_endpoint env region crid name sgs dir ips tgs s
     = (Ok l, s')) :
  ∃ o (first : IpAddress) subnet_id subnet_info,
    objects s' !! l = Some o ∧
    head ips = Some first ∧
    first !! "SubnetId" = Some subnet_id ∧
    subnets (ec2_backends env region) !! subnet_id = Some subnet_info ∧
    description o
    = [ ("Id", FStr (new_endpoint_id env dir));
        ("CreatorRequestId", FStr crid);
        ("Arn",
         FStr ("arn:aws:route53resolver:" +:+ region +:+ ":" +:+ ACCOUNT_ID
                 +:+ ":resolver-endpoint/" +:+ new_endpoint_id env dir));
        ("Name", FOptStr name);
        ("SecurityGroupIds", FStrList sgs);
        ("Direction", FStr dir);
        ("IpAddressCount", FInt 0);
        ("HostVPCId", FStr (vpc_id subnet_info));
        ("Status", FStr "OPERATIONAL");
        ("StatusMessage",
         FStr "[Trace id: x] Creating the Resolver Endpoint");
        ("CreationTime", FStr (utcnow env 0));
        ("ModificationTime", FStr (utcnow env 1)) ].
Proof.
  pose proof (create_resolver_endpoint_run env region crid name sgs dir
                ips tgs s) as Hrun.
  destruct (create_checks env region crid name sgs dir ips) as [[]|e]
    eqn:Hchecks; [|by rewrite Hrun in Hcreate].
  destruct Hrun as (o & Ho & Hrun). rewrite Hrun in Hcreate.
  injection Hcreate as <- <-.
  unfold create_checks, rbind in Hchecks.
  destruct (validate_args _) as [[]|]; [|done].
  destruct (_verify_subnet_ips env region ips) as [[]|] eqn:Hv; [|done].
  destruct (new_ResolverEndpoint_verified env region
              (new_endpoint_id env dir) crid sgs dir ips name Hv)
    as (o' & Ho' & _ & _ & _ & _ & _ & _ & _ & _ & _
        & first & subnet_id & subnet_info & Hfirst & Hid & Hsubnet & Hvpc).
  rewrite Ho in Ho'. injection Ho' as <-.
  exists o, first, subnet_id, subnet_info. split_and!; try done.
  - cbn. by apply list_lookup_middle.
  - rewrite (new_ResolverEndpoint_record _ _ _ _ _ _ _ _ _ Ho).
    unfold description, arn. cbn. by rewrite Hvpc.
Qed.

(** X12.  The record that [delete_resolver_endpoint] returns describes
    itself as it did before the call, except for its [Status], which reads
    [DELETING]: no other entry of the description, the modification time
    included, is touched by a deletion. *)
Theorem deleted_endpoint_description i s l s' o
  (Hdelete : delete_resolver_endpoint i s = (Ok l, s'))
  (Ho : objects s !! l = Some o) :
  ∃ o', objects s' !! l = Some o' ∧
        dict_get (description o') "Status" = Some (FStr "DELETING") ∧
        ∀ key, key ≠ "Status" →
          dict_get (description o') key = dict_get (description o) key.
Proof.
  rewrite delete_resolver_endpoint_run in Hdelete.
  destruct (validate_endpoint_id (VStr i)); [done|].
  destruct (resolver_endpoints (self s) !! i) as [l0|]; [|done].
  injection Hdelete as <- <-.
  exists (set_status "DELETING" o). split_and!.
  - cbn. by rewrite list_lookup_alter_eq, Ho.
  - reflexivity.
  - intros key Hkey. unfold dict_get, description, arn.
    cbn -[String.eqb].
    repeat match goal with
           | |- context [String.eqb ?a key] =>
               destruct (String.eqb_spec a key) as [Heq|_];
               [first [done | congruence]|]
           end.
    done.
Qed.

(** X13.  Called on a request that was not verified, the constructor
    raises [IndexError] when there is no IP address, Python's [KeyError]
    when the first IP address has no [SubnetId], and lets the network
    service's own [InvalidSubnetIdError] through when the subnet of the
    first IP address is unknown.  It looks at that first subnet only: when
    it exists the endpoint is built with its VPC as host VPC, whatever
    subnets the other addresses name. *)
Theorem constructor_unverified env region endpoint_id crid sgs dir name :
  new_ResolverEndpoint env region endpoint_id crid sgs dir [] name
  = Raise IndexError ∧
  ∀ (first : IpAddress) rest,
    (first !! "SubnetId" = None →
     new_ResolverEndpoint env region endpoint_id crid sgs dir
       (first :: rest) name
     = Raise (KeyError "SubnetId")) ∧
    ∀ subnet_id,
      first !! "SubnetId" = Some subnet_id →
      (subnets (ec2_backends env region) !! subnet_id = None →
       new_ResolverEndpoint env region endpoint_id crid sgs dir
         (first :: rest) name
       = Raise (InvalidSubnetIdError subnet_id)) ∧
      (∀ subnet_info,
         subnets (ec2_backends env region) !! subnet_id
         = Some subnet_info →
         ∃ o, new_ResolverEndpoint env region endpoint_id crid sgs dir
                (first :: rest) name = Ok o ∧
              host_vpc_id o = vpc_id subnet_info ∧
              ip_addresses o = first :: rest ∧
              status o = "OPERATIONAL").
Proof.
  split; [reflexivity|]. intros first rest.
  unfold new_ResolverEndpoint, _vpc_id_from_subnet, getitem.
  split; [by intros ->|]. intros subnet_id ->. cbn [rbind].
  rewrite get_all_subnets_one. split.
  - by intros ->.
  - intros subnet_info ->. cbn [rbind]. eauto.
Qed.

(** *** Failures *)

(** X14.  When [delete_resolver_endpoint] raises, nothing has changed, and
    the exception is one of two: the [ValidationException] of an ID that
    fails the format check, with that one violation and whether or not the
    ID is registered, or else the [ResourceNotFoundException] of an
    unregistered ID.  The [KeyError] of [pop] never shows. *)
Theorem delete_raises_cleanly i s e
  (Hraise : fst (delete_resolver_endpoint i s) = Raise e) :
  snd (delete_resolver_endpoint i s) = s ∧
  ((∃ msg, validate_endpoint_id (VStr i) = Some msg ∧
           e = ValidationException [("resolverEndpointId", VStr i, msg)]) ∨
   (validate_endpoint_id (VStr i) = None ∧
    resolver_endpoints (self s) !! i = None ∧
    e = ResourceNotFoundException
          ("Resolver endpoint with ID '" +:+ i +:+ "' does not exist"))).
Proof.
  rewrite delete_resolver_endpoint_run in Hraise |- *.
  destruct (validate_endpoint_id (VStr i)) as [msg|].
  - injection Hraise as <-. split; [done|]. left. eauto.
  - destruct (resolver_endpoints (self s) !! i) as [l|]; [done|].
    injection Hraise as <-. split; [done|]. by right.
Qed.

(** X15.  Every exception that [create_resolver_endpoint] ends with is a
    [ValidationException], an [InvalidParameterException], an
    [InvalidRequestException], a [ResourceNotFoundException], the
    [ValueError] of an address that does not parse, or Python's
    [KeyError] for [SubnetId] or [Ip]: neither error of the network
    service and no [IndexError] reaches the caller.  The [KeyError]
    reaches the caller exactly when the request passes the format checks
    and lists at least two IP addresses, one of which lacks one of the two
    keys.  (The imported format checks answer with a violation or with
    none, as [validate_args] expects of them; they do not raise.) *)
Theorem create_raises_own_errors env region crid name sgs dir ips tgs s e
  (Hraise :
     fst (create_resolver_endpoint env region crid name sgs dir ips tgs s)
     = Raise e) :
  (own_error e ∨ e = KeyError "SubnetId" ∨ e = KeyError "Ip") ∧
  (∀ subnet_id, e ≠ InvalidSubnetIdError subnet_id) ∧
  (∀ group_id, e ≠ InvalidSecurityGroupNotFoundError group_id) ∧
  e ≠ IndexError ∧
  ((∃ key, e = KeyError key) ↔
   validate_args (create_validators crid name sgs dir ips) = Ok () ∧
   2 ≤ length ips ∧
   ¬ Forall (fun x : IpAddress =>
               is_Some (x !! "SubnetId") ∧ is_Some (x !! "Ip")) ips).
Proof.
  pose proof (create_resolver_endpoint_run env region crid name sgs dir
                ips tgs s) as Hrun.
  destruct (create_checks env region crid name sgs dir ips) as [[]|e0]
    eqn:Hchecks.
  { destruct Hrun as (o & _ & Hrun). by rewrite Hrun in Hraise. }
  rewrite Hrun in Hraise. injection Hraise as ->.
  assert (Hown : own_error e ∨ e = KeyError "SubnetId" ∨ e = KeyError "Ip")
    by (by eapply create_checks_raises).
  split_and!;
    [done | destruct Hown as [?|[?|?]]; destruct e; done ..|].
  unfold create_checks in Hchecks.
  destruct (validate_args _) as [[]|e0] eqn:Hv; cbn [rbind] in Hchecks.
  2:{ injection Hchecks as ->.
      apply validate_args_raises in Hv as [errs ->].
      split; [by intros [? ?] | by intros [? _]]. }
  destruct (_verify_subnet_ips env region ips) as [[]|e1] eqn:Hs;
    cbn [rbind] in Hchecks.
  - split.
    + intros [key ->]. unfold _verify_security_group_ids in Hchecks.
      destruct (10 <? length sgs); [done|].
      by apply verify_group_ids_raises in Hchecks.
    + intros (_ & _ & Hkeys). destruct Hkeys.
      unfold _verify_subnet_ips in Hs.
      destruct (length ips <? 2); [done|].
      apply verify_subnet_entries_ok in Hs.
      eapply Forall_impl; [exact Hs|].
      intros x (? & ? & ? & -> & -> & _). eauto.
  - injection Hchecks as ->. split.
    + intros [key ->].
      destruct (verify_subnet_ips_raises _ _ _ _ Hs) as [?|(_ & ? & ?)];
        done.
    + intros (_ & Hlen & Hkeys). unfold _verify_subnet_ips in Hs.
      destruct (length ips <? 2) eqn:Hlt;
        [apply Nat.ltb_lt in Hlt; lia|].
      destruct (verify_subnet_entries_keys (ec2_backends env region) ips
                  Hkeys) as (key & _ & Hkey).
      rewrite Hkey in Hs. injection Hs as <-. eauto.
Qed.

(** *** [reset] *)

(** X16.  [reset] gives back a backend as [__init__] builds it for the
    same region name: no endpoint is registered and no tag is held, so
    that afterwards every ID that passes the format check is unknown to
    [delete_resolver_endpoint]; endpoint objects handed out earlier are
    left as they are, and resetting twice is resetting once. *)
Theorem reset_clears_backend s :
  let s' := snd (reset s) in
  fst (reset s) = Ok () ∧
  self s' = init_backend (region_name (self s)) ∧
  objects s' = objects s ∧
  (∀ i, resolver_endpoints (self s') !! i = None ∧
        list_tags_for_resource (tagger (self s')) i = []) ∧
  (∀ i, validate_endpoint_id (VStr i) = None →
        delete_resolver_endpoint i s'
        = (Raise (ResourceNotFoundException
                    ("Resolver endpoint with ID '" +:+ i
                       +:+ "' does not exist")),
           s')) ∧
  snd (reset s') = s'.
Proof.
  intros s'. subst s'. unfold reset. cbn [fst snd self objects].
  split_and!; try done.
  intros i Hwf. rewrite delete_resolver_endpoint_run, Hwf.
  cbn [self init_backend resolver_endpoints]. by rewrite lookup_empty.
Qed.

End Records.

(** *** The registry of regions *)

Lemma register_regions_lookup available backends (r : string) :
  register_regions available backends !! r
  = if decide (r ∈ available) then Some (init_backend (Some r))
    else backends !! r.
Proof.
  revert backends. induction available as [|a available IH];
    intros backends.
  - cbn. by rewrite decide_False by apply not_elem_of_nil.
  - cbn [register_regions fold_left].
    change (fold_left _ available ?b) with (register_regions available b).
    rewrite IH. destruct (decide (r ∈ available)) as [Hin|Hout].
    + rewrite decide_True by (by right). done.
    + rewrite lookup_insert. destruct (decide (a = r)) as [->|Hne].
      * rewrite decide_True by left. done.
      * rewrite decide_False; [done|].
        intros [?|?]%elem_of_cons; congruence.
Qed.

(** X17.  Once the module is loaded, [route53resolver_backends] holds a
    backend for exactly the regions that boto3 lists for the service in
    the default, the [aws-us-gov] or the [aws-cn] partition, and the
    backend of a region is a fresh one built for that region name, however
    often the region is listed. *)
Theorem route53resolver_backends_lookup standard us_gov cn (r : string) :
  route53resolver_backends standard us_gov cn !! r
  = if decide (r ∈ standard ++ us_gov ++ cn)
    then Some (init_backend (Some r))
    else None.
Proof.
  unfold route53resolver_backends.
  rewrite !register_regions_lookup, lookup_empty.
  repeat case_decide; try done; exfalso;
    repeat match goal with
           | H : _ ∈ _ ++ _ |- _ => apply elem_of_app in H as [?|?]
           | H : ¬ (_ ∈ _ ++ _) |- _ =>
               apply not_elem_of_app in H as [? ?]
           end; done.
Qed.

(** *** The properties above, on the sample deployment *)

Lemma first_offending_security_group_witness :
  _verify_security_group_ids (sample_env 0) "us-east-1" ["sg-1"; "group-2"]
  = Raise (InvalidParameterException
             ("Malformed security group ID: Invalid id: 'group-2' "
                +:+ "(expecting 'sg-...')")).
Proof.
  refine (proj1
            (first_offending_security_group (sample_env 0) "us-east-1"
               ["sg-1"; "group-2"] ["sg-1"] "group-2" [] _ _ _) _).
  - reflexivity.
  - simpl. lia.
  - constructor; [|constructor].
    split; [reflexivity | vm_compute; reflexivity].
  - reflexivity.
Defined.

Lemma first_offending_ip_address_witness :
  _verify_subnet_ips (imports := sample_imports) (sample_env 0) "us-east-1"
    [ ip_entry "subnet-a" "10.0.1.200";
      ip_entry "subnet-b" "10.0.9.9" ]
  = Raise (InvalidRequestException
             ("IP address '10.0.9.9' is either not in subnet "
                +:+ "'subnet-b' CIDR range or is reserved")) ∧
  _verify_subnet_ips (imports := sample_imports) sample_env_odd_cidr
    "us-east-1"
    [ ip_entry "subnet-a" "10.0.1.200";
      ip_entry "subnet-c" "10.0.3.7" ]
  = Raise ValueError ∧
  ∃ key,
    _verify_subnet_ips (imports := sample_imports) (sample_env 0)
      "us-east-1"
      [ ip_entry "subnet-a" "10.0.9.9"; subnet_entry "subnet-b" ]
    = Raise (KeyError key).
Proof.
  split_and!.
  - refine (proj1
              (proj1
                 (first_offending_ip_address (imports := sample_imports)
                    (sample_env 0) "us-east-1"
                    [ ip_entry "subnet-a" "10.0.1.200";
                      ip_entry "subnet-b" "10.0.9.9" ]
                    [ ip_entry "subnet-a" "10.0.1.200" ]
                    (ip_entry "subnet-b" "10.0.9.9") []
                    "subnet-b" "10.0.9.9"
                    {| cidr_block := "10.0.2.0/24"; vpc_id := "vpc-1" |}
                    _ _ _ _ _ _) _) _).
    + reflexivity.
    + simpl. lia.
    + constructor; [|constructor].
      exists "subnet-a", "10.0.1.200",
        {| cidr_block := "10.0.1.0/24"; vpc_id := "vpc-1" |}.
      split_and!; vm_compute; reflexivity.
    + vm_compute. reflexivity.
    + vm_compute. reflexivity.
    + vm_compute. reflexivity.
    + constructor.
    + vm_compute. reflexivity.
  - refine (proj2
              (proj1
                 (first_offending_ip_address (imports := sample_imports)
                    sample_env_odd_cidr "us-east-1"
                    [ ip_entry "subnet-a" "10.0.1.200";
                      ip_entry "subnet-c" "10.0.3.7" ]
                    [ ip_entry "subnet-a" "10.0.1.200" ]
                    (ip_entry "subnet-c" "10.0.3.7") []
                    "subnet-c" "10.0.3.7"
                    {| cidr_block := "10.0.3.0/33"; vpc_id := "vpc-1" |}
                    _ _ _ _ _ _) _) _).
    + reflexivity.
    + simpl. lia.
    + constructor; [|constructor].
      exists "subnet-a", "10.0.1.200",
        {| cidr_block := "10.0.1.0/24"; vpc_id := "vpc-1" |}.
      split_and!; vm_compute; reflexivity.
    + vm_compute. reflexivity.
    + vm_compute. reflexivity.
    + vm_compute. reflexivity.
    + constructor.
    + vm_compute. reflexivity.
  - destruct (first_offending_ip_address (imports := sample_imports)
                (sample_env 0) "us-east-1"
                [ ip_entry "subnet-a" "10.0.9.9"; subnet_entry "subnet-b" ]
                [] (ip_entry "subnet-a" "10.0.9.9")
                [ subnet_entry "subnet-b" ]
                "subnet-a" "10.0.9.9"
                {| cidr_block := "10.0.1.0/24"; vpc_id := "vpc-1" |})
      as [_ Hkey].
    + reflexivity.
    + simpl. lia.
    + constructor.
    + vm_compute. reflexivity.
    + vm_compute. reflexivity.
    + vm_compute. reflexivity.
    + destruct Hkey as (key & _ & Hkey); [|by exists key].
      intros [[_ [ip_addr Hip]] _]%Forall_cons.
      vm_compute in Hip. discriminate.
Defined.

Lemma no_orphan_tags_witness :
  list_tags_for_resource
    (tagger
       (self
          (after_all (imports := sample_imports)
             [ CreateResolverEndpoint (sample_env 0) "us-east-1" "request-1"
                 (Some "endpoint") ["sg-1"] "INBOUND" sample_ips
                 (Some [("team", "dns")]);
               DeleteResolverEndpoint "rslvr-in-0123456789abcdef0" ]
             (initial (Some "us-east-1")))))
    "rslvr-in-0123456789abcdef0"
  = [].
Proof.
  apply (no_orphan_tags (imports := sample_imports) (Some "us-east-1")
           [ CreateResolverEndpoint (sample_env 0) "us-east-1" "request-1"
               (Some "endpoint") ["sg-1"] "INBOUND" sample_ips
               (Some [("team", "dns")]);
             DeleteResolverEndpoint "rslvr-in-0123456789abcdef0" ]
           "rslvr-in-0123456789abcdef0").
  vm_compute. reflexivity.
Defined.

Lemma create_resolver_endpoint_frame_witness :
  resolver_endpoints
    (self (snd (sample_create 1 "INBOUND" None sample_created)))
    !! "rslvr-in-0123456789abcdef0"
  = resolver_endpoints (self sample_created) !! "rslvr-in-0123456789abcdef0".
Proof.
  destruct (create_resolver_endpoint_frame (imports := sample_imports)
              (sample_env 1) "us-east-1" "request-1" (Some "endpoint")
              ["sg-1"] "INBOUND" sample_ips None sample_created 1
              (snd (sample_create 1 "INBOUND" None sample_created)))
    as (Hothers & _).
  - vm_compute. reflexivity.
  - apply Hothers. vm_compute. discriminate.
Defined.

Lemma delete_resolver_endpoint_frame_witness :
  let s := snd (sample_create 1 "INBOUND" None sample_created) in
  resolver_endpoints
    (self (snd (delete_resolver_endpoint (imports := sample_imports)
                  "rslvr-in-0123456789abcdef0" s)))
    !! "rslvr-in-123456789abcdef01"
  = resolver_endpoints (self s) !! "rslvr-in-123456789abcdef01".
Proof.
  intros s.
  destruct (delete_resolver_endpoint_frame (imports := sample_imports)
              "rslvr-in-0123456789abcdef0" s 0
              (snd (delete_resolver_endpoint (imports := sample_imports)
                      "rslvr-in-0123456789abcdef0" s)))
    as (_ & Hothers & _).
  - vm_compute. reflexivity.
  - apply Hothers. discriminate.
Defined.

Lemma create_then_delete_restores_witness :
  ∃ o,
    delete_resolver_endpoint (imports := sample_imports)
      "rslvr-in-123456789abcdef01"
      (snd (sample_create 1 "INBOUND" (Some [("team", "dns")])
              sample_created))
    = (Ok 1,
       {| objects := objects sample_created ++ [set_status "DELETING" o];
          self := self sample_created |}).
Proof.
  destruct (create_then_delete_restores (imports := sample_imports)
              sample_accepts_generated_ids (sample_env 1) "us-east-1"
              "request-1" (Some "endpoint") ["sg-1"] "INBOUND" sample_ips
              (Some [("team", "dns")]) sample_created 1
              (snd (sample_create 1 "INBOUND" (Some [("team", "dns")])
                      sample_created))
              sample_created_reachable)
    as (o & _ & Hdelete).
  - vm_compute. reflexivity.
  - vm_compute. reflexivity.
  - exists o. exact Hdelete.
Defined.

Lemma references_stay_valid_witness :
  ∃ o o',
    objects sample_created !! 0 = Some o ∧
    objects
      (after_all (imports := sample_imports)
         [DeleteResolverEndpoint "rslvr-in-0123456789abcdef0"; ResetBackend]
         sample_created) !! 0 = Some o' ∧
    (o' = o ∨ o' = set_status "DELETING" o).
Proof.
  assert (Ho : ∃ o, objects sample_created !! 0 = Some o)
    by (vm_compute; eauto).
  destruct Ho as [o Ho].
  destruct (references_stay_valid (imports := sample_imports)
              [DeleteResolverEndpoint "rslvr-in-0123456789abcdef0";
               ResetBackend]
              sample_created 0 o Ho) as (o' & Ho' & Hsame).
  exists o, o'. auto.
Defined.

Lemma created_endpoint_describes_request_witness :
  ∃ o, objects sample_created !! 0 = Some o ∧
       dict_get (description (imports := sample_imports) o) "Name"
       = Some (FOptStr (Some "endpoint")).
Proof.
  destruct (created_endpoint_describes_request (imports := sample_imports)
              (sample_env 0) "us-east-1" "request-1" (Some "endpoint")
              ["sg-1"] "INBOUND" sample_ips (Some [("team", "dns")])
              sample_state 0 sample_created)
    as (o & first & subnet_id & subnet_info & Ho & _ & _ & _
        & Hdescription).
  - vm_compute. reflexivity.
  - exists o. split; [exact Ho|]. rewrite Hdescription. reflexivity.
Defined.

Lemma deleted_endpoint_description_witness :
  ∃ o',
    objects
      (snd (delete_resolver_endpoint (imports := sample_imports)
              "rslvr-in-0123456789abcdef0" sample_created)) !! 0
    = Some o' ∧
    dict_get (description (imports := sample_imports) o') "Status"
    = Some (FStr "DELETING").
Proof.
  assert (Ho : ∃ o, objects sample_created !! 0 = Some o)
    by (vm_compute; eauto).
  destruct Ho as [o Ho].
  destruct (deleted_endpoint_description (imports := sample_imports)
              "rslvr-in-0123456789abcdef0" sample_created 0
              (snd (delete_resolver_endpoint (imports := sample_imports)
                      "rslvr-in-0123456789abcdef0" sample_created))
              o)
    as (o' & Ho' & Hstatus & _).
  - vm_compute. reflexivity.
  - exact Ho.
  - exists o'. auto.
Defined.

Lemma delete_raises_cleanly_witness :
  snd (delete_resolver_endpoint (imports := sample_imports)
         "rslvr-in-ffffffffffffffffff" sample_created)
  = sample_created.
Proof.
  apply (delete_raises_cleanly (imports := sample_imports)
           "rslvr-in-ffffffffffffffffff" sample_created
           (ResourceNotFoundException
              ("Resolver endpoint with ID 'rslvr-in-ffffffffffffffffff'"
                 +:+ " does not exist"))).
  vm_compute. reflexivity.
Defined.

Lemma create_raises_own_errors_witness :
  fst (sample_create_at [ ip_entry "subnet-a" "10.0.1.200";
                          subnet_entry "subnet-b" ]
         sample_state)
  = Raise (KeyError "Ip") ∧
  validate_args
    (create_validators (imports := sample_imports) "request-1"
       (Some "endpoint") ["sg-1"] "INBOUND"
       [ ip_entry "subnet-a" "10.0.1.200"; subnet_entry "subnet-b" ])
  = Ok () ∧
  ¬ Forall (fun x : IpAddress =>
              is_Some (x !! "SubnetId") ∧ is_Some (x !! "Ip"))
      [ ip_entry "subnet-a" "10.0.1.200"; subnet_entry "subnet-b" ].
Proof.
  assert (Hraise :
            fst (sample_create_at [ ip_entry "subnet-a" "10.0.1.200";
                                    subnet_entry "subnet-b" ]
                   sample_state)
            = Raise (KeyError "Ip"))
    by (vm_compute; reflexivity).
  split; [exact Hraise|].
  destruct (create_raises_own_errors (imports := sample_imports)
              (sample_env 0) "us-east-1" "request-1" (Some "endpoint")
              ["sg-1"] "INBOUND"
              [ ip_entry "subnet-a" "10.0.1.200"; subnet_entry "subnet-b" ]
              None sample_state (KeyError "Ip") Hraise)
    as (_ & _ & _ & _ & [Hkey _]).
  destruct Hkey as (Hvalid & _ & Hkeys); [by exists "Ip" | done].
Defined.

End ResolverTheory.
